(** * A shallow embedding of the graph runtime of pydantic-ai

    The development follows the Python sources:
    - [pydantic_ai/retrievers.py]: module [Retrievers];
    - [pydantic_ai_graph/nodes.py]: module [Nodes];
    - [pydantic_graph/graph.py]: modules [GraphDef] (construction and
      validation) and [Engine] ([next] and [run]);
    - [pydantic_ai_graph/state.py]: module [State];
    - state.py and graph.py again, for a state class that may define its
      own [deep_copy] and a state that [copy.deepcopy] may refuse: module
      [Copying];
    - [pydantic_graph/mermaid.py]: module [Mermaid].

    Python objects that are mutated in place and are reachable through
    several references (the live state object, the history records) live in
    explicit stores; dictionaries are association lists in insertion order;
    a call that may raise returns a [result].  The definitions come first,
    the statements about them follow in [RetrieverFacts], [EngineFacts] and
    [GraphFacts]. *)

From Stdlib Require Import ZArith String Ascii List Bool Lia.
From stdpp Require Import base tactics option list strings.
From Stdlib Require DecimalString.

Import ListNotations.
Local Open Scope string_scope.
Local Open Scope list_scope.
Local Open Scope Z_scope.

(** Outcome of a Python call: it returns a value or raises. *)
Inductive result (E A : Type) : Type :=
| Ok (a : A)
| Raise (e : E).
Arguments Ok {E A} a.
Arguments Raise {E A} e.

(** The line feed, the double quote, and the em dash of the
    duplicate-identity message (U+2014, three bytes in UTF-8). *)
Definition LF : string := String (ascii_of_nat 10) EmptyString.
Definition DQUOTE : string := String (ascii_of_nat 34) EmptyString.
Definition EM_DASH : string :=
  String (ascii_of_nat 226) (String (ascii_of_nat 128) (String (ascii_of_nat 148) EmptyString)).

(** Python truthiness of a [str | None]. *)
Definition truthy (s : option string) : bool :=
  match s with
  | None => false
  | Some s' => negb (String.eqb s' EmptyString)
  end.

(* ===================================================================== *)
(** * pydantic_ai/retrievers.py *)
(* ===================================================================== *)
Module Retrievers.

(** What a retriever works with.  [AgentContext] is the type parameter of
    the source; [Value] stands for [Any], [ArgsDict] for the
    [dict[str, Any]] that validation returns, [ErrorDetails] for
    [e.errors()], [FunctionExn] for what the wrapped function may raise.
    The three operations on argument dictionaries that [_call_args] uses:
    [single n d] is [{n: d}]; [pop k d] is [d.pop(k)], the value and the
    dictionary without the key, [None] when the key is missing;
    [items v] is what [args.extend(v)] adds, [None] when [v] is not
    iterable. *)
Class Runtime := {
  AgentContext : Type;
  Value : Type;
  ArgsDict : Type;
  ErrorDetails : Type;
  FunctionExn : Type;
  JsonSchemaValue : Type;
  single : string -> ArgsDict -> ArgsDict;
  pop : string -> ArgsDict -> option (Value * ArgsDict);
  items : Value -> option (list Value)
}.

Section WithRuntime.
Context {R : Runtime}.

(** dataclass [CallInfo] *)
Record CallInfo := { context : AgentContext; retry : Z }.

(** [messages.FunctionCall] and the two messages [run] answers with. *)
Record FunctionCall :=
  { function_id : string; function_name : string; arguments : string }.

Inductive Message :=
| FunctionValidationError (fid fname : string) (errors : ErrorDetails)
| FunctionResponse (fid fname : string) (content : string).

(** What [Retriever.run] can raise: the re-raised [ValidationError], the
    [KeyError] of a [pop], the [TypeError] of an [extend], or an exception
    of the wrapped function. *)
Inductive RunExn :=
| ValidationError (errors : ErrorDetails)
| KeyError (key : string)
| TypeError
| FunctionRaised (e : FunctionExn).

(** A positional argument of the wrapped function. *)
Inductive Arg :=
| Info (info : CallInfo)
| Positional (v : Value).

(** dataclass [Retriever].  [validator] stands for
    [self.validator.validate_json]; [function] is called with the
    positional and the keyword arguments. *)
Record Retriever := {
  name : string;
  description : string;
  function : list Arg -> ArgsDict -> result FunctionExn string;
  is_async : bool;
  takes_info : bool;
  single_arg_name : option string;
  positional_fields : list string;
  var_positional_field : option string;
  validator : string -> result ErrorDetails ArgsDict;
  json_schema : JsonSchemaValue;
  max_retries : Z;
  _current_retry : Z
}.

(** [self._current_retry = n] *)
Definition set_current_retry (self : Retriever) (n : Z) : Retriever :=
  {| name := name self; description := description self;
     function := function self; is_async := is_async self;
     takes_info := takes_info self; single_arg_name := single_arg_name self;
     positional_fields := positional_fields self;
     var_positional_field := var_positional_field self;
     validator := validator self; json_schema := json_schema self;
     max_retries := max_retries self; _current_retry := n |}.

(** [Retriever.reset] *)
Definition reset (self : Retriever) : Retriever := set_current_retry self 0.

(** The loop of [_call_args] over the positional fields. *)
Fixpoint pop_positional (fields : list string) (args : list Arg) (args_dict : ArgsDict)
  : result RunExn (list Arg * ArgsDict) :=
  match fields with
  | [] => Ok (args, args_dict)
  | positional_field :: rest =>
      match pop positional_field args_dict with
      | None => Raise (KeyError positional_field)
      | Some (v, args_dict') => pop_positional rest (args ++ [Positional v]) args_dict'
      end
  end.

(** [Retriever._call_args] *)
Definition _call_args (self : Retriever) (ctx : AgentContext) (args_dict : ArgsDict)
  : result RunExn (list Arg * ArgsDict) :=
  let args_dict :=
    if truthy (single_arg_name self)
    then single (default EmptyString (single_arg_name self)) args_dict
    else args_dict in
  let args :=
    if takes_info self
    then [Info {| context := ctx; retry := _current_retry self |}]
    else [] in
  match pop_positional (positional_fields self) args args_dict with
  | Raise e => Raise e
  | Ok (args, args_dict) =>
      if truthy (var_positional_field self)
      then match pop (default EmptyString (var_positional_field self)) args_dict with
           | None => Raise (KeyError (default EmptyString (var_positional_field self)))
           | Some (v, args_dict') =>
               match items v with
               | None => Raise TypeError
               | Some vs => Ok (args ++ map Positional vs, args_dict')
               end
           end
      else Ok (args, args_dict)
  end.

(** The part of [run] between validation and the reset of the counter:
    the arguments are laid out and the function is awaited (directly or in
    the executor, with the same outcome). *)
Definition call (self : Retriever) (ctx : AgentContext) (args_dict : ArgsDict)
  : result RunExn string :=
  match _call_args self ctx args_dict with
  | Raise e => Raise e
  | Ok (args, kwargs) =>
      match function self args kwargs with
      | Raise x => Raise (FunctionRaised x)
      | Ok response_content => Ok response_content
      end
  end.

(** [Retriever.run]: the retriever after the call, and what the call
    returned or raised. *)
Definition run (self : Retriever) (ctx : AgentContext) (message : FunctionCall)
  : Retriever * result RunExn Message :=
  match validator self (arguments message) with
  | Raise e =>
      let self1 := set_current_retry self (_current_retry self + 1) in
      if max_retries self1 <? _current_retry self1
      then (self1, Raise (ValidationError e))
      else (self1, Ok (FunctionValidationError
                         (function_id message) (function_name message) e))
  | Ok args_dict =>
      match call self ctx args_dict with
      | Raise x => (self, Raise x)
      | Ok response_content =>
          (set_current_retry self 0,
           Ok (FunctionResponse (function_id message) (function_name message)
                 response_content))
      end
  end.

(** The same retriever object serving a sequence of calls, one after the
    other; the caller survives an exception and goes on calling. *)
Fixpoint run_all (self : Retriever) (ctx : AgentContext) (ms : list FunctionCall)
  : Retriever * list (result RunExn Message) :=
  match ms with
  | [] => (self, [])
  | m :: ms' =>
      let '(self1, r) := run self ctx m in
      let '(self2, rs) := run_all self1 ctx ms' in
      (self2, r :: rs)
  end.

Definition is_raise {E A} (r : result E A) : bool :=
  match r with Raise _ => true | Ok _ => false end.

(** Does the message pass validation? *)
Definition validates (self : Retriever) (m : FunctionCall) : bool :=
  negb (is_raise (validator self (arguments m))).

(** Length of the run of validation failures that ends the sequence [oks]
    (one boolean per call: did it validate?), counted from [start]. *)
Fixpoint failure_streak (start : Z) (oks : list bool) : Z :=
  match oks with
  | [] => start
  | true :: oks' => failure_streak 0 oks'
  | false :: oks' => failure_streak (start + 1) oks'
  end.

(** Total number of validation failures in the sequence. *)
Definition total_failures (oks : list bool) : Z :=
  Z.of_nat (List.length (List.filter (fun b => negb b) oks)).

(** Every message that validates is executed successfully, whatever the
    retry count shown to the function. *)
Definition executes_ok (self : Retriever) (ctx : AgentContext) (ms : list FunctionCall)
  : Prop :=
  forall m a c, In m ms -> validator self (arguments m) = Ok a ->
                is_raise (call (set_current_retry self c) ctx a) = false.

End WithRuntime.

End Retrievers.

(* ===================================================================== *)
(** * Python dictionaries with string keys

    A [dict] iterates in insertion order, and the error messages of graph
    construction follow that order: an association list whose keys are
    pairwise distinct. *)
(* ===================================================================== *)
Module Dict.

Section Dict.
Context {V : Type}.

Definition dict := list (string * V).

(** [d.get(k)] *)
Fixpoint get (k : string) (d : dict) : option V :=
  match d with
  | [] => None
  | (k', v) :: d' => if String.eqb k k' then Some v else get k d'
  end.

(** [k in d] *)
Definition mem (k : string) (d : dict) : bool :=
  match get k d with Some _ => true | None => false end.

(** [d[k] = v]: an existing key keeps its place, a new one goes last. *)
Fixpoint set (k : string) (v : V) (d : dict) : dict :=
  match d with
  | [] => [(k, v)]
  | (k', v') :: d' =>
      if String.eqb k k' then (k', v) :: d' else (k', v') :: set k v d'
  end.

(** [d.keys()] *)
Definition keys (d : dict) : list string := map fst d.
End Dict.

(** [d.setdefault(k, []).append(x)] on a [dict[str, list[str]]] *)
Fixpoint setdefault_append (k x : string) (d : list (string * list string))
  : list (string * list string) :=
  match d with
  | [] => [(k, [x])]
  | (k', xs) :: d' =>
      if String.eqb k k' then (k', xs ++ [x]) :: d'
      else (k', xs) :: setdefault_append k x d'
  end.

End Dict.

(* ===================================================================== *)
(** * nodes.py: node types and their definitions *)
(* ===================================================================== *)
Module Nodes.

(** One member of the union that a node's [run] is declared to return, as
    the loop of [get_node_def] tells them apart. *)
Inductive ReturnType :=
| RBaseNode                   (** [BaseNode] itself, with or without arguments *)
| RNode (target_id : string)  (** a subclass of [BaseNode]; [return_type.get_id()] *)
| REnd                        (** [End], with or without arguments *)
| ROther (shown : string)     (** any other class, with its printed form *)
| RNotClass.                  (** a member whose origin is not a class *)

(** Modelled from the spec: the declaration of [Edge] is not in the tree.
    An edge carries an optional label, which the renderer reads as
    [edge.label]. *)
Record Edge := { label : option string }.

Inductive SetupExn :=
| TypeError (msg : string)
| KeyError (key : string)
| NameError (msg : string)
| GraphSetupError (msg : string).

(** A node class.  [cls_str] is what the class prints as inside an f-string.
    [hints_error] is the exception that
    [get_type_hints(cls.run, localns=local_ns)['return']] raises: the
    [NameError] of an annotation that names something undefined, the
    [KeyError] of a [run] that declares no return type; [None] when it
    gives the declared return type.  [return_hint] is then
    [get_union_args(type_hints['return'])], each member with the edge
    annotation it carries; [cls_note] is the descriptive note of the
    class. *)
Record NodeType := {
  cls_name : string;
  cls_node_id : option string;
  cls_str : string;
  hints_error : option SetupExn;
  return_hint : list (ReturnType * Edge);
  cls_note : option string
}.

(** [BaseNode.get_id]: [cls.node_id or cls.__name__] *)
Definition get_id (cls : NodeType) : string :=
  match cls_node_id cls with
  | Some s => if String.eqb s EmptyString then cls_name cls else s
  | None => cls_name cls
  end.

(** Modelled from the spec: the declaration of the [NodeDef] that graph.py
    and mermaid.py read is not in the tree.  Its fields are the ones they
    read: the node type and its identity, the optional descriptive note, the
    resolved edges (successor identity and edge), the terminal edge if the
    node may end, and the wildcard flag.  The [NodeDef] of nodes.py names
    the last three [next_node_ids], [can_end] and [dest_any] and keeps no
    labels. *)
Record NodeDef := {
  node : NodeType;
  node_id : string;
  note : option string;
  next_node_edges : list (string * Edge);
  end_edge : option Edge;
  returns_base_node : bool
}.

(** The loop of [get_node_def] over the members of the return annotation.
    [issubclass] raises on a member whose origin is not a class. *)
Fixpoint classify (hints : list (ReturnType * Edge))
    (next_node_ids : list (string * Edge)) (can_end : option Edge) (dest_any : bool)
  : result SetupExn (list (string * Edge) * option Edge * bool) :=
  match hints with
  | [] => Ok (next_node_ids, can_end, dest_any)
  | (RBaseNode, _) :: rest => classify rest next_node_ids can_end true
  | (RNode target, e) :: rest =>
      classify rest (Dict.set target e next_node_ids) can_end dest_any
  | (REnd, e) :: rest => classify rest next_node_ids (Some e) dest_any
  | (ROther shown, _) :: _ => Raise (TypeError ("Invalid return type: " +:+ shown))
  | (RNotClass, _) :: _ => Raise (TypeError "issubclass() arg 1 must be a class")
  end.

(** [BaseNode.get_node_def] of nodes.py, filling the fields of [NodeDef]
    under the names graph.py reads them by. *)
Definition get_node_def (cls : NodeType) : result SetupExn NodeDef :=
  match hints_error cls with
  | Some e => Raise e
  | None =>
      match classify (return_hint cls) [] None false with
      | Raise e => Raise e
      | Ok (next_node_ids, can_end, dest_any) =>
          Ok {| node := cls; node_id := get_id cls; note := cls_note cls;
                next_node_edges := next_node_ids; end_edge := can_end;
                returns_base_node := dest_any |}
      end
  end.

End Nodes.

(* ===================================================================== *)
(** * graph.py: construction and validation *)
(* ===================================================================== *)
Module GraphDef.
Import Nodes.

(** dataclass [Graph] *)
Record Graph := {
  name : option string;
  node_defs : list (string * NodeDef)
}.

(** The successor references of the registered nodes, in the order in which
    [_validate_edges] meets them: the identity referred to, and the identity
    of the node that refers to it. *)
Definition references (defs : list (string * NodeDef)) : list (string * string) :=
  flat_map (fun kv => map (fun edge => (edge, fst kv))
                          (Dict.keys (next_node_edges (snd kv)))) defs.

(** Those that refer to an identity that is not registered. *)
Definition unresolved_references (defs : list (string * NodeDef)) : list (string * string) :=
  List.filter (fun r => negb (Dict.mem (fst r) defs)) (references defs).


(** One step of the grouping done by the loops of [_validate_edges]. *)
Definition add_reference (bad_edges : list (string * list string)) (r : string * string)
  : list (string * list string) :=
  Dict.setdefault_append (fst r) ("`" +:+ snd r +:+ "`") bad_edges.

(** Does an identity occur twice in the list? *)
Fixpoint has_duplicates (ids : list string) : bool :=
  match ids with
  | [] => false
  | i :: rest => (existsb (String.eqb i) rest || has_duplicates rest)%bool
  end.

(** Is the declared return type of the node type one that [get_node_def]
    accepts? *)
Definition valid_declaration (cls : NodeType) : bool :=
  match get_node_def cls with Ok _ => true | Raise _ => false end.

Section Construction.
(** [_utils.comma_and], which joins the names of the referencing nodes. *)
Variable comma_and : list string -> string.

(** [Graph._register_node], on the dictionary under construction. *)
Definition _register_node (defs : list (string * NodeDef)) (cls : NodeType)
  : result SetupExn (list (string * NodeDef)) :=
  let node_id := get_id cls in
  match Dict.get node_id defs with
  | Some existing_node =>
      Raise (GraphSetupError
               ("Node ID `" +:+ node_id +:+ "` is not unique " +:+ EM_DASH +:+ " found on "
                +:+ cls_str (node existing_node) +:+ " and " +:+ cls_str cls))
  | None =>
      match get_node_def cls with
      | Raise e => Raise e
      | Ok d => Ok (Dict.set node_id d defs)
      end
  end.

(** The loop of [__init__] over [nodes]. *)
Fixpoint register_all (defs : list (string * NodeDef)) (nodes : list NodeType)
  : result SetupExn (list (string * NodeDef)) :=
  match nodes with
  | [] => Ok defs
  | cls :: rest =>
      match _register_node defs cls with
      | Raise e => Raise e
      | Ok defs' => register_all defs' rest
      end
  end.

(** The inner loop of [_validate_edges]: the edges of one node. *)
Fixpoint collect_node (known_node_ids : list (string * NodeDef)) (node_id : string)
    (edges : list string) (bad_edges : list (string * list string))
  : list (string * list string) :=
  match edges with
  | [] => bad_edges
  | edge :: rest =>
      collect_node known_node_ids node_id rest
        (if Dict.mem edge known_node_ids then bad_edges
         else Dict.setdefault_append edge ("`" +:+ node_id +:+ "`") bad_edges)
  end.

(** The outer loop of [_validate_edges]: every entry of [node_defs]. *)
Fixpoint collect_bad_edges (known_node_ids : list (string * NodeDef))
    (items : list (string * NodeDef)) (bad_edges : list (string * list string))
  : list (string * list string) :=
  match items with
  | [] => bad_edges
  | (node_id, node_def) :: rest =>
      collect_bad_edges known_node_ids rest
        (collect_node known_node_ids node_id
           (Dict.keys (next_node_edges node_def)) bad_edges)
  end.

Definition bad_edge_line (kv : string * list string) : string :=
  "`" +:+ fst kv +:+ "` is referenced by " +:+ comma_and (snd kv).

(** The message raised for a non-empty [bad_edges]. *)
Definition bad_edges_message (bad_edges : list (string * list string)) : string :=
  let bad_edges_list := map bad_edge_line bad_edges in
  match bad_edges_list with
  | [only] => only +:+ " but not included in the graph."
  | _ =>
      let b := String.concat LF (map (fun be => " " +:+ be) bad_edges_list) in
      "Nodes are referenced in the graph but not included in the graph:" +:+ LF +:+ b
  end.

(** [Graph._validate_edges] *)
Definition _validate_edges (defs : list (string * NodeDef)) : result SetupExn unit :=
  let bad_edges := collect_bad_edges defs defs [] in
  match bad_edges with
  | [] => Ok tt
  | _ => Raise (GraphSetupError (bad_edges_message bad_edges))
  end.

(** [Graph.__init__] *)
Definition Graph_init (nodes : list NodeType) (name : option string)
  : result SetupExn Graph :=
  match register_all [] nodes with
  | Raise e => Raise e
  | Ok defs =>
      match _validate_edges defs with
      | Raise e => Raise e
      | Ok _ => Ok {| name := name; node_defs := defs |}
      end
  end.
End Construction.

End GraphDef.

(* ===================================================================== *)
(** * state.py: state objects, snapshots and history records *)
(* ===================================================================== *)
Module State.

(** References to Python objects. *)
Abbreviation loc := nat.

(** The store of state objects.  [cell h l] is the content of the object
    that [l] refers to; objects are allocated at [next_free]. *)
Record Heap (V : Type) := { cell : loc -> V; next_free : loc }.
Arguments cell {V} h l.
Arguments next_free {V} h.

Section Heap.
Context {V : Type}.

Definition allocated (h : Heap V) (l : loc) : Prop := (l < next_free h)%nat.

Definition alloc (h : Heap V) (v : V) : Heap V * loc :=
  ({| cell := fun l => if Nat.eqb l (next_free h) then v else cell h l;
      next_free := S (next_free h) |},
   next_free h).

(** Mutation of the object at [l], in place. *)
Definition write (h : Heap V) (l : loc) (v : V) : Heap V :=
  {| cell := fun l' => if Nat.eqb l' l then v else cell h l';
     next_free := next_free h |}.

(** [AbstractState.deep_copy]: [copy.deepcopy(self)] where it returns, a
    new object with the same content.  The method that a state class
    defines in its place, and the exception of [copy.deepcopy] on a state
    it cannot copy, are in module [Copying]. *)
Definition deep_copy (h : Heap V) (self : loc) : Heap V * loc :=
  alloc h (cell h self).

(** [_deep_copy_state] on a state whose class inherits [deep_copy] and
    which [copy.deepcopy] copies; [None] is the absent state. *)
Definition _deep_copy_state (h : Heap V) (state : option loc) : Heap V * option loc :=
  match state with
  | None => (h, None)
  | Some s => let '(h', c) := deep_copy h s in (h', Some c)
  end.

(** [c] in [h'] is the copy of [state] taken in [h]: absent for an
    absent state, otherwise a new object with the content of the live
    one. *)
Definition is_copy_of (h : Heap V) (state : option loc)
    (h' : Heap V) (c : option loc) : Prop :=
  match state with
  | None => c = None /\ h' = h
  | Some s => c = Some (next_free h) /\ h' = fst (alloc h (cell h s))
  end.
End Heap.

(** What a node computation hands back to the engine: a node instance, an
    [End], or an object of some other type (with the name of that type). *)
Inductive Returned (Node RunEnd : Type) :=
| RetNode (n : Node)
| RetEnd (data : RunEnd)
| RetOther (type_name : string).
Arguments RetNode {Node RunEnd} n.
Arguments RetEnd {Node RunEnd} data.
Arguments RetOther {Node RunEnd} type_name.

(** The program run by the engine: its node instances and their
    computations, the state content they work on, and the two clocks.
    [node_run n s] is [await n.run(ctx)] on a context whose state has
    content [s] ([None]: no state): the content the computation leaves in
    the live state object ([None]: untouched), and what it returns or
    raises.  The [k]-th reading of a clock is [now_utc k] or
    [perf_counter k]. *)
Class Program := {
  StateV : Type;
  RunEnd : Type;
  Node : Type;
  NodeExn : Type;
  RunInterrupt : Type;
  datetime : Type;
  float : Type;
  type_of : Node -> Nodes.NodeType;
  node_str : Node -> string;
  node_run : Node -> option StateV -> option StateV * result NodeExn (Returned Node RunEnd);
  now_utc : nat -> datetime;
  perf_counter : nat -> float;
  float_sub : float -> float -> float
}.

Section Events.
Context {P : Program}.

(** [HistoryStep]: the union of the three record classes.  The step
    record is [NextNodeEvent] in state.py and [NodeEvent] in graph.py.  The
    [End] object held by an end record is given by the value it carries. *)
Inductive HistoryStep :=
| NodeEvent (state : option loc) (node : Node) (start_ts : datetime)
            (duration : option float)
| InterruptEvent (state : option loc) (result : RunInterrupt) (ts : datetime)
| EndEvent (state : option loc) (result : RunEnd) (ts : datetime).

Definition kind (e : HistoryStep) : string :=
  match e with
  | NodeEvent _ _ _ _ => "step"
  | InterruptEvent _ _ _ => "interrupt"
  | EndEvent _ _ _ => "end"
  end.

(** The [state] field of a record. *)
Definition snapshot (e : HistoryStep) : option loc :=
  match e with
  | NodeEvent s _ _ _ | InterruptEvent s _ _ | EndEvent s _ _ => s
  end.

(** A step record whose duration has been written. *)
Definition is_finished_step (e : HistoryStep) : bool :=
  match e with
  | NodeEvent _ _ _ (Some _) => true
  | _ => false
  end.

(** [history_step.duration = d] *)
Definition set_duration (d : float) (e : HistoryStep) : HistoryStep :=
  match e with
  | NodeEvent s n ts _ => NodeEvent s n ts (Some d)
  | other => other
  end.

(** The world a run lives in: the state objects, the history records
    (a record is referred to by its index in [events]) and the number of
    clock readings taken so far. *)
Record World := {
  heap : Heap StateV;
  events : list HistoryStep;
  clock : nat
}.

Definition tick (w : World) : World :=
  {| heap := heap w; events := events w; clock := S (clock w) |}.

Definition with_heap (w : World) (h : Heap StateV) : World :=
  {| heap := h; events := events w; clock := clock w |}.

(** The live state object is mutated: its content becomes [v]. *)
Definition mutate (w : World) (s : loc) (v : StateV) : World :=
  with_heap w (write (heap w) s v).

(** The values [vs] are written to the live state object, in turn. *)
Definition mutate_all (w : World) (s : loc) (vs : list StateV) : World :=
  fold_left (fun w' v => mutate w' s v) vs w.

(** Creation of a record object. *)
Definition new_event (w : World) (e : HistoryStep) : World * loc :=
  ({| heap := heap w; events := events w ++ [e]; clock := clock w |},
   length (events w)).

(** The three constructors: the timestamp is read by the field's default
    factory, then [__post_init__] replaces the state by its copy. *)
Definition new_NodeEvent (w : World) (state : option loc) (node : Node) : World * loc :=
  let start_ts := now_utc (clock w) in
  let w1 := tick w in
  let '(h, c) := _deep_copy_state (heap w1) state in
  new_event (with_heap w1 h) (NodeEvent c node start_ts None).

Definition new_InterruptEvent (w : World) (state : option loc) (result : RunInterrupt)
  : World * loc :=
  let ts := now_utc (clock w) in
  let w1 := tick w in
  let '(h, c) := _deep_copy_state (heap w1) state in
  new_event (with_heap w1 h) (InterruptEvent c result ts).

Definition new_EndEvent (w : World) (state : option loc) (result : RunEnd) : World * loc :=
  let ts := now_utc (clock w) in
  let w1 := tick w in
  let '(h, c) := _deep_copy_state (heap w1) state in
  new_event (with_heap w1 h) (EndEvent c result ts).

(** What a record is created from, next to the state: the three kinds. *)
Inductive RecordOf :=
| StepOf (node : Node)
| InterruptOf (result : RunInterrupt)
| EndOf (result : RunEnd).

Definition new_record (w : World) (state : option loc) (k : RecordOf) : World * loc :=
  match k with
  | StepOf node => new_NodeEvent w state node
  | InterruptOf result => new_InterruptEvent w state result
  | EndOf result => new_EndEvent w state result
  end.

(** The content of the snapshot held by the record at [r]. *)
Definition snapshot_content (w : World) (r : loc) : option (option StateV) :=
  match events w !! r with
  | None => None
  | Some e => Some (match snapshot e with
                    | None => None
                    | Some c => Some (cell (heap w) c)
                    end)
  end.

(** The records a history list refers to. *)
Definition records (w : World) (history : list loc) : list (option HistoryStep) :=
  map (fun r => events w !! r) history.
End Events.

End State.

(* ===================================================================== *)
(** * graph.py: the execution engine

    [next] and [run] on a state whose class inherits [deep_copy] and which
    [copy.deepcopy] copies, and on no state; module [Copying] has them for
    any state class. *)
(* ===================================================================== *)
Module Engine.
Import Nodes GraphDef State.

Section Engine.
Context {P : Program}.

Inductive RunExn :=
| GraphRuntimeError (msg : string)
| NodeRaised (e : NodeExn).

(** The logfire spans around the node computation and the run are
    instrumentation and are left out. *)

(** [node.get_id()] on an instance. *)
Definition node_get_id (n : Node) : string := get_id (type_of n).

(** [await node.run(ctx)] with [ctx = GraphContext(state)]: the
    computation works on the live state object itself. *)
Definition run_node (w : World) (state : option loc) (n : Node)
  : World * result NodeExn (Returned Node RunEnd) :=
  match state with
  | None => (w, snd (node_run n None))
  | Some s =>
      let '(v', out) := node_run n (Some (cell (heap w) s)) in
      (match v' with Some v => mutate w s v | None => w end, out)
  end.

(** [Graph.next] up to the point where the computation is awaited: the
    registration check, the step record and its append, and the first
    reading of the performance counter. *)
Definition next_begin (g : Graph) (w : World) (state : option loc) (n : Node)
    (history : list loc)
  : result RunExn (World * list loc * loc * float) :=
  if negb (Dict.mem (node_get_id n) (node_defs g))
  then Raise (GraphRuntimeError ("Node `" +:+ node_str n +:+ "` is not in the graph."))
  else
    let '(w1, history_step) := new_NodeEvent w state n in
    let history1 := history ++ [history_step] in
    let start := perf_counter (clock w1) in
    Ok (tick w1, history1, history_step, start).

(** [history_step.duration = perf_counter() - start] *)
Definition next_end (w : World) (history_step : loc) (start : float) : World :=
  let stop := perf_counter (clock w) in
  {| heap := heap w;
     events := alter (set_duration (float_sub stop start)) history_step (events w);
     clock := S (clock w) |}.

(** [Graph.next]: the world and the caller's history list after the call,
    and what the call returned or raised. *)
Definition next (g : Graph) (w : World) (state : option loc) (n : Node)
    (history : list loc)
  : World * list loc * result RunExn (Returned Node RunEnd) :=
  match next_begin g w state n history with
  | Raise e => (w, history, Raise e)
  | Ok (w1, history1, history_step, start) =>
      match run_node w1 state n with
      | (w2, Raise e) => (w2, history1, Raise (NodeRaised e))
      | (w2, Ok next_node) => (next_end w2 history_step start, history1, Ok next_node)
      end
  end.

(** The loop of [Graph.run], [fuel] iterations of it at most; [None] when
    they do not suffice. *)
Fixpoint run_loop (fuel : nat) (g : Graph) (w : World) (state : option loc)
    (start_node : Node) (history : list loc)
  : option (World * result RunExn (RunEnd * list loc)) :=
  match fuel with
  | O => None
  | S fuel' =>
      match next g w state start_node history with
      | (w1, _, Raise e) => Some (w1, Raise e)
      | (w1, history1, Ok (RetEnd data)) =>
          let '(w2, end_event) := new_EndEvent w1 state data in
          let history2 := history1 ++ [end_event] in
          Some (w2, Ok (data, history2))
      | (w1, history1, Ok (RetNode next_node)) =>
          run_loop fuel' g w1 state next_node history1
      | (w1, _, Ok (RetOther type_name)) =>
          Some (w1, Raise (GraphRuntimeError
                             ("Invalid node return type: `" +:+ type_name
                              +:+ "`. Expected `BaseNode` or `End`.")))
      end
  end.

(** [Graph.run] *)
Definition run (fuel : nat) (g : Graph) (w : World) (state : option loc)
    (start_node : Node)
  : option (World * result RunExn (RunEnd * list loc)) :=
  run_loop fuel g w state start_node [].

(** [k] node computations, started at [n] with the history list [history],
    end the run: the last one returns [End(data)], the others return the
    node that is run next. *)
Inductive reaches_end (g : Graph) (state : option loc)
  : World -> Node -> list loc -> nat -> World -> list loc -> RunEnd -> Prop :=
| reaches_end_now w n history w1 history1 data :
    next g w state n history = (w1, history1, Ok (RetEnd data)) ->
    reaches_end g state w n history 1 w1 history1 data
| reaches_end_later w n history w1 history1 n1 k w2 history2 data :
    next g w state n history = (w1, history1, Ok (RetNode n1)) ->
    reaches_end g state w1 n1 history1 k w2 history2 data ->
    reaches_end g state w n history (S k) w2 history2 data.
End Engine.

End Engine.

(* ===================================================================== *)
(** * state.py and graph.py for any state class

    [_deep_copy_state] calls [state.deep_copy()]: the method of the class
    of the state, which is [AbstractState.deep_copy], that is
    [copy.deepcopy(self)], unless the class defines its own; and
    [copy.deepcopy] raises on an object it cannot copy.  The record
    constructors, [next] and [run] follow, with the exception of the copy
    as one more outcome. *)
(* ===================================================================== *)
Module Copying.
Import Nodes GraphDef State.

(** The class of the state objects of a program.  [deepcopy_error v] is
    the exception that [copy.deepcopy] raises on a state object of content
    [v]; [None] when it copies it.  [deep_copy_override] is the method
    [deep_copy] that the class defines; [None] when it inherits the one of
    [AbstractState].  The method is given the store and the state object;
    it leaves a store, and returns an object or raises. *)
Class StateClass (P : Program) := {
  CopyExn : Type;
  deepcopy_error : StateV -> option CopyExn;
  deep_copy_override : option (Heap StateV -> loc -> Heap StateV * result CopyExn loc)
}.

Section Copying.
Context {P : Program} {C : StateClass P}.

(** [AbstractState.deep_copy]: [copy.deepcopy(self)] *)
Definition AbstractState_deep_copy (h : Heap StateV) (self : loc)
  : Heap StateV * result CopyExn loc :=
  match deepcopy_error (cell h self) with
  | Some e => (h, Raise e)
  | None => let '(h', c) := State.deep_copy h self in (h', Ok c)
  end.

(** [state.deep_copy()], resolved in the class of the state. *)
Definition deep_copy (h : Heap StateV) (self : loc)
  : Heap StateV * result CopyExn loc :=
  match deep_copy_override with
  | Some method => method h self
  | None => AbstractState_deep_copy h self
  end.

(** [_deep_copy_state] *)
Definition _deep_copy_state (h : Heap StateV) (state : option loc)
  : Heap StateV * result CopyExn (option loc) :=
  match state with
  | None => (h, Ok None)
  | Some s =>
      match deep_copy h s with
      | (h', Raise e) => (h', Raise e)
      | (h', Ok c) => (h', Ok (Some c))
      end
  end.

(** The three constructors: the timestamp is read by the field's default
    factory, then [__post_init__] replaces the state by its copy; when the
    copy raises, no record comes to exist. *)
Definition new_NodeEvent (w : World) (state : option loc) (node : Node)
  : World * result CopyExn loc :=
  let start_ts := now_utc (clock w) in
  let w1 := tick w in
  match _deep_copy_state (heap w1) state with
  | (h, Raise e) => (with_heap w1 h, Raise e)
  | (h, Ok c) =>
      let '(w2, r) := new_event (with_heap w1 h) (NodeEvent c node start_ts None) in
      (w2, Ok r)
  end.

Definition new_InterruptEvent
  : World -> option loc -> RunInterrupt -> World * result CopyExn loc :=
  fun w state result =>
  let ts := now_utc (clock w) in
  let w1 := tick w in
  match _deep_copy_state (heap w1) state with
  | (h, Raise e) => (with_heap w1 h, Raise e)
  | (h, Ok c) =>
      let '(w2, r) := new_event (with_heap w1 h) (InterruptEvent c result ts) in
      (w2, Ok r)
  end.

Definition new_EndEvent
  : World -> option loc -> RunEnd -> World * result CopyExn loc :=
  fun w state result =>
  let ts := now_utc (clock w) in
  let w1 := tick w in
  match _deep_copy_state (heap w1) state with
  | (h, Raise e) => (with_heap w1 h, Raise e)
  | (h, Ok c) =>
      let '(w2, r) := new_event (with_heap w1 h) (EndEvent c result ts) in
      (w2, Ok r)
  end.

Definition new_record (w : World) (state : option loc) (k : RecordOf)
  : World * result CopyExn loc :=
  match k with
  | StepOf node => new_NodeEvent w state node
  | InterruptOf result => new_InterruptEvent w state result
  | EndOf result => new_EndEvent w state result
  end.

(** What [next] and [run] raise: the engine's own error, the exception of a
    node computation, or the exception of a copy of the state. *)
Inductive RunExn :=
| GraphRuntimeError (msg : string)
| NodeRaised (e : NodeExn)
| CopyRaised (e : CopyExn).

(** [Graph.next]: the world and the caller's history list after the call,
    and what the call returned or raised. *)
Definition next (g : Graph) (w : World) (state : option loc) (n : Node)
    (history : list loc)
  : World * list loc * result RunExn (Returned Node RunEnd) :=
  if negb (Dict.mem (Engine.node_get_id n) (node_defs g))
  then (w, history,
        Raise (GraphRuntimeError ("Node `" +:+ node_str n +:+ "` is not in the graph.")))
  else
    match new_NodeEvent w state n with
    | (w1, Raise e) => (w1, history, Raise (CopyRaised e))
    | (w1, Ok history_step) =>
        let history1 := history ++ [history_step] in
        let start := perf_counter (clock w1) in
        match Engine.run_node (tick w1) state n with
        | (w2, Raise e) => (w2, history1, Raise (NodeRaised e))
        | (w2, Ok next_node) =>
            (Engine.next_end w2 history_step start, history1, Ok next_node)
        end
    end.

(** The loop of [Graph.run], [fuel] iterations of it at most; [None] when
    they do not suffice. *)
Fixpoint run_loop (fuel : nat) (g : Graph) (w : World) (state : option loc)
    (start_node : Node) (history : list loc)
  : option (World * result RunExn (RunEnd * list loc)) :=
  match fuel with
  | O => None
  | S fuel' =>
      match next g w state start_node history with
      | (w1, _, Raise e) => Some (w1, Raise e)
      | (w1, history1, Ok (RetEnd data)) =>
          match new_EndEvent w1 state data with
          | (w2, Raise e) => Some (w2, Raise (CopyRaised e))
          | (w2, Ok end_event) => Some (w2, Ok (data, history1 ++ [end_event]))
          end
      | (w1, history1, Ok (RetNode next_node)) =>
          run_loop fuel' g w1 state next_node history1
      | (w1, _, Ok (RetOther type_name)) =>
          Some (w1, Raise (GraphRuntimeError
                             ("Invalid node return type: `" +:+ type_name
                              +:+ "`. Expected `BaseNode` or `End`.")))
      end
  end.

(** [Graph.run] *)
Definition run (fuel : nat) (g : Graph) (w : World) (state : option loc)
    (start_node : Node)
  : option (World * result RunExn (RunEnd * list loc)) :=
  run_loop fuel g w state start_node [].

(** The exception of [copy.deepcopy] on the state, if it raises one. *)
Definition copy_error (h : Heap StateV) (state : option loc) : option CopyExn :=
  match state with
  | Some s => deepcopy_error (cell h s)
  | None => None
  end.

(** An exception of the engine of module [Engine], among those of this
    one. *)
Definition of_engine (e : Engine.RunExn) : RunExn :=
  match e with
  | Engine.GraphRuntimeError msg => GraphRuntimeError msg
  | Engine.NodeRaised x => NodeRaised x
  end.

Definition of_engine_result {A} (r : result Engine.RunExn A) : result RunExn A :=
  match r with
  | Ok a => Ok a
  | Raise e => Raise (of_engine e)
  end.

Definition of_engine_next
    (x : World * list loc * result Engine.RunExn (Returned Node RunEnd))
  : World * list loc * result RunExn (Returned Node RunEnd) :=
  let '(w, history, r) := x in (w, history, of_engine_result r).

End Copying.

End Copying.

(* ===================================================================== *)
(** * mermaid.py: the diagram renderer *)
(* ===================================================================== *)
Module Mermaid.
Import Nodes GraphDef.

(** [NodeIdent]: an identity given as a string, or a node type or instance
    (of which only [get_id()] is used). *)
Inductive NodeIdent :=
| IdentStr (s : string)
| IdentNode (cls : NodeType).

(** The argument [start_node] or [highlighted_nodes]: absent, a single
    identifier, or a sequence of them. *)
Inductive NodeIdents :=
| NoIdents
| OneIdent (i : NodeIdent)
| ManyIdents (l : list NodeIdent).

Definition ident_id (i : NodeIdent) : string :=
  match i with
  | IdentStr s => s
  | IdentNode cls => get_id cls
  end.

(** [_node_ids] *)
Definition _node_ids (node_idents : NodeIdents) : list string :=
  match node_idents with
  | NoIdents => []
  | OneIdent i => [ident_id i]
  | ManyIdents l => map ident_id l
  end.

(** Python truthiness of the argument: [None], the empty string and the
    empty sequence are false. *)
Definition idents_truthy (node_idents : NodeIdents) : bool :=
  match node_idents with
  | NoIdents => false
  | OneIdent (IdentStr s) => negb (String.eqb s EmptyString)
  | OneIdent (IdentNode _) => true
  | ManyIdents [] => false
  | ManyIdents (_ :: _) => true
  end.

Inductive MermaidExn :=
| LookupError (msg : string)
| AttributeError (msg : string)
| KeyError (key : string).

(** [re.sub('\n{2,}', '\n', s)]: a line feed that is followed by another
    one is dropped. *)
Fixpoint collapse_newlines (s : string) : string :=
  match s with
  | EmptyString => EmptyString
  | String c rest =>
      match rest with
      | String c' _ =>
          if (Ascii.eqb c (ascii_of_nat 10) && Ascii.eqb c' (ascii_of_nat 10))%bool
          then collapse_newlines rest
          else String c (collapse_newlines rest)
      | EmptyString => String c EmptyString
      end
  end.

(** The first identity of the list that the graph does not know. *)
Fixpoint first_unknown (g : Graph) (ids : list string) : option string :=
  match ids with
  | [] => None
  | i :: rest => if Dict.mem i (node_defs g) then first_unknown g rest else Some i
  end.

(** [graph.nodes] on a [Graph] as graph.py has it: the class declares
    [name] and [node_defs], its constructor sets these two, and no other
    code of graph.py sets an attribute; there is no [nodes]. *)
Definition Graph_nodes (g : Graph) : option (list NodeType) := None.

Section Render.
(** [textwrap.indent] *)
Variable indent : string -> string -> string.

(** [graph.nodes]: the attribute [nodes] of the object passed as [graph],
    a sequence of node types; [None] when the object has no such
    attribute, as a [Graph] of graph.py ([Graph_nodes]). *)
Variable nodes : option (list NodeType).

Definition edge_line (edge_labels : bool) (node_id : string) (kv : string * Edge) : string :=
  let line := "  " +:+ node_id +:+ " --> " +:+ fst kv in
  if (edge_labels && truthy (label (snd kv)))%bool
  then line +:+ ": " +:+ default EmptyString (label (snd kv))
  else line.

(** The lines of the edges that leave a node towards other nodes;
    [graph_nodes] is the sequence that [graph.nodes] gives. *)
Definition successor_lines (graph_nodes : list NodeType) (edge_labels : bool)
    (node_id : string) (node_def : NodeDef)
  : list string :=
  if returns_base_node node_def
  then map (fun next_node_id => "  " +:+ node_id +:+ " --> " +:+ cls_str next_node_id)
           graph_nodes
  else map (edge_line edge_labels node_id) (next_node_edges node_def).

Definition end_lines (edge_labels : bool) (node_id : string) (node_def : NodeDef)
  : list string :=
  match end_edge node_def with
  | Some end_edge =>
      let line := "  " +:+ node_id +:+ " --> [*]" in
      [if (edge_labels && truthy (label end_edge))%bool
       then line +:+ ": " +:+ default EmptyString (label end_edge)
       else line]
  | None => []
  end.

Definition note_lines (notes : bool) (node_id : string) (node_def : NodeDef)
  : list string :=
  if (notes && truthy (note node_def))%bool
  then ["  note right of " +:+ node_id;
        indent (collapse_newlines (default EmptyString (note node_def))) "    ";
        "  end note"]
  else [].

(** One iteration of the loop over [graph.nodes]. *)
Definition node_lines (graph_nodes : list NodeType) (g : Graph)
    (start_node_ids : list string) (edge_labels notes : bool) (cls : NodeType)
  : result MermaidExn (list string) :=
  let node_id := get_id cls in
  match Dict.get node_id (node_defs g) with
  | None => Raise (KeyError node_id)
  | Some node_def =>
      Ok ((if existsb (String.eqb node_id) start_node_ids
           then ["  [*] --> " +:+ node_id] else [])
          ++ successor_lines graph_nodes edge_labels node_id node_def
          ++ end_lines edge_labels node_id node_def
          ++ note_lines notes node_id node_def)
  end.

Fixpoint all_node_lines (graph_nodes : list NodeType) (g : Graph)
    (start_node_ids : list string) (edge_labels notes : bool) (todo : list NodeType)
  : result MermaidExn (list string) :=
  match todo with
  | [] => Ok []
  | cls :: rest =>
      match node_lines graph_nodes g start_node_ids edge_labels notes cls with
      | Raise e => Raise e
      | Ok ls =>
          match all_node_lines graph_nodes g start_node_ids edge_labels notes rest with
          | Raise e => Raise e
          | Ok ls' => Ok (ls ++ ls')
          end
      end
  end.

(** The loop over the highlighted nodes. *)
Fixpoint highlight_lines (g : Graph) (ids : list string)
  : result MermaidExn (list string) :=
  match ids with
  | [] => Ok []
  | node_id :: rest =>
      if Dict.mem node_id (node_defs g)
      then match highlight_lines g rest with
           | Raise e => Raise e
           | Ok ls => Ok (("class " +:+ node_id +:+ " highlighted") :: ls)
           end
      else Raise (LookupError ("Highlighted node " +:+ DQUOTE +:+ node_id +:+ DQUOTE +:+ " is not in the graph."))
  end.

(** The lines that [generate_code] joins.  [start_node_ids] is a set in
    the source; the identities are taken here in the order given. *)
Definition generate_lines (g : Graph) (start_node highlighted_nodes : NodeIdents)
    (highlight_css : string) (edge_labels notes : bool)
  : result MermaidExn (list string) :=
  let start_node_ids := if idents_truthy start_node then _node_ids start_node else [] in
  match first_unknown g start_node_ids with
  | Some node_id =>
      Raise (LookupError ("Start node " +:+ DQUOTE +:+ node_id +:+ DQUOTE
                          +:+ " is not in the graph."))
  | None =>
      match nodes with
      | None => Raise (AttributeError "'Graph' object has no attribute 'nodes'")
      | Some graph_nodes =>
          match all_node_lines graph_nodes g start_node_ids edge_labels notes graph_nodes with
          | Raise e => Raise e
          | Ok body =>
              if idents_truthy highlighted_nodes
              then match highlight_lines g (_node_ids highlighted_nodes) with
                   | Raise e => Raise e
                   | Ok hl =>
                       Ok ("stateDiagram-v2" :: body
                           ++ [EmptyString; "classDef highlighted " +:+ highlight_css]
                           ++ hl)
                   end
              else Ok ("stateDiagram-v2" :: body)
          end
      end
  end.

(** [generate_code] *)
Definition generate_code (g : Graph) (start_node highlighted_nodes : NodeIdents)
    (highlight_css : string) (edge_labels notes : bool)
  : result MermaidExn string :=
  match generate_lines g start_node highlighted_nodes highlight_css edge_labels notes with
  | Raise e => Raise e
  | Ok lines => Ok (String.concat LF lines)
  end.
End Render.

Definition DEFAULT_HIGHLIGHT_CSS : string := "fill:#fdff32".

End Mermaid.

(* ===================================================================== *)
(** * Concrete graphs and programs *)
(* ===================================================================== *)
Module Examples.
Import Nodes GraphDef State Engine.

(** A function to join names with, for the concrete graphs below; the
    theorems on construction hold for every [comma_and]. *)
Fixpoint comma_and (items : list string) : string :=
  match items with
  | [] => EmptyString
  | [x] => x
  | [x; y] => x +:+ ", and " +:+ y
  | x :: rest => x +:+ ", " +:+ comma_and rest
  end.

Definition no_label : Edge := {| label := None |}.

(** A node class with the given name, no explicit [node_id], printed the
    way the metaclass of nodes.py prints a subclass of [BaseNode[None, int]],
    and the given declared outcomes. *)
Definition node_class (nm : string) (outcomes : list ReturnType) : NodeType :=
  {| cls_name := nm; cls_node_id := None; cls_str := nm +:+ "(BaseNode[None, int])";
     hints_error := None;
     return_hint := map (fun r => (r, no_label)) outcomes; cls_note := None |}.

Definition Twin1 : NodeType :=
  {| cls_name := "Twin"; cls_node_id := None; cls_str := "first.Twin";
     hints_error := None; return_hint := [(REnd, no_label)]; cls_note := None |}.
Definition Twin2 : NodeType :=
  {| cls_name := "Other"; cls_node_id := Some "Twin"; cls_str := "second.Other";
     hints_error := None; return_hint := [(REnd, no_label)]; cls_note := None |}.
Definition BadHint : NodeType := node_class "BadHint" [ROther "<class 'int'>"].

(** A node type that may go anywhere, and one it can reach. *)
Definition Hub : NodeType := node_class "Hub" [RBaseNode; RNode "Leaf"].
Definition Leaf : NodeType := node_class "Leaf" [REnd].

Definition Hub_graph : Graph :=
  {| name := None;
     node_defs :=
       [("Hub", {| node := Hub; node_id := "Hub"; note := None;
                   next_node_edges := [("Leaf", no_label)]; end_edge := None;
                   returns_base_node := true |});
        ("Leaf", {| node := Leaf; node_id := "Leaf"; note := None;
                    next_node_edges := []; end_edge := Some no_label;
                    returns_base_node := false |})] |}.

(** An indentation for texts of one line. *)
Definition indent_line (text prefix : string) : string := prefix +:+ text.

(** Two node types that name the unregistered [Z], one that names the
    unregistered [Y]. *)
Definition ToZ1 : NodeType := node_class "ToZ1" [RNode "Z"; REnd].
Definition ToZ2 : NodeType := node_class "ToZ2" [RNode "Z"; RNode "Y"].

(** Node types [A] (successor [B]) and [B] (terminal only). *)
Definition A : NodeType := node_class "A" [RNode "B"].
Definition B : NodeType := node_class "B" [REnd].

Inductive ABNode := A_instance | B_instance.

(** The program of the two nodes: no shared state, [A] returns a [B]
    instance, [B] returns [End(42)]; clock readings are numbered. *)
#[local] Instance AB : Program := {|
  StateV := unit;
  RunEnd := Z;
  Node := ABNode;
  NodeExn := Empty_set;
  RunInterrupt := Empty_set;
  datetime := nat;
  float := Z;
  type_of := fun n => match n with A_instance => A | B_instance => B end;
  node_str := fun n => match n with A_instance => "A()" | B_instance => "B()" end;
  node_run := fun n _ =>
    match n with
    | A_instance => (None, Ok (RetNode B_instance))
    | B_instance => (None, Ok (RetEnd 42))
    end;
  now_utc := fun k => k;
  perf_counter := fun k => Z.of_nat k;
  float_sub := Z.sub
|}.

Definition empty_heap {V} (v : V) : Heap V := {| cell := fun _ => v; next_free := 0%nat |}.

Definition AB_world : World :=
  {| heap := empty_heap tt; events := []; clock := 0%nat |}.

Definition AB_graph : Graph :=
  {| name := None;
     node_defs :=
       [("A", {| node := A; node_id := "A"; note := None;
                 next_node_edges := [("B", no_label)]; end_edge := None;
                 returns_base_node := false |});
        ("B", {| node := B; node_id := "B"; note := None;
                 next_node_edges := []; end_edge := Some no_label;
                 returns_base_node := false |})] |}.


(** A program with a shared counter.  [Increment] adds one to the state and
    goes on until it reaches three; [Boom] changes the state and raises;
    [Junk] returns an integer; [Stray] belongs to no graph. *)
Inductive CounterNode := Increment_instance | Boom_instance | Junk_instance | Stray_instance.

Definition Increment : NodeType := node_class "Increment" [RNode "Increment"; REnd].
Definition Boom : NodeType := node_class "Boom" [REnd].
Definition Junk : NodeType := node_class "Junk" [REnd].
Definition Stray : NodeType := node_class "Stray" [REnd].

#[local] Instance Counter : Program := {|
  StateV := Z;
  RunEnd := Z;
  Node := CounterNode;
  NodeExn := string;
  RunInterrupt := string;
  datetime := nat;
  float := Z;
  type_of := fun n =>
    match n with
    | Increment_instance => Increment
    | Boom_instance => Boom
    | Junk_instance => Junk
    | Stray_instance => Stray
    end;
  node_str := fun n =>
    match n with
    | Increment_instance => "Increment()"
    | Boom_instance => "Boom()"
    | Junk_instance => "Junk()"
    | Stray_instance => "Stray()"
    end;
  node_run := fun n s =>
    match n, s with
    | Increment_instance, Some v =>
        (Some (v + 1),
         Ok (if v + 1 <? 3 then RetNode Increment_instance else RetEnd (v + 1)))
    | Increment_instance, None => (None, Ok (RetEnd 0))
    | Boom_instance, Some v => (Some (v + 100), Raise "boom")
    | Boom_instance, None => (None, Raise "boom")
    | Junk_instance, _ => (None, Ok (RetOther "int"))
    | Stray_instance, _ => (None, Ok (RetEnd 0))
    end;
  now_utc := fun k => k;
  perf_counter := fun k => Z.of_nat k;
  float_sub := Z.sub
|}.

(** One state object, at reference 0, with content 0. *)
Definition Counter_world : @World Counter :=
  {| heap := {| cell := fun _ => 0; next_free := 1%nat |}; events := []; clock := 0%nat |}.

Definition Counter_graph : Graph :=
  {| name := Some "counter";
     node_defs :=
       [("Increment", {| node := Increment; node_id := "Increment"; note := None;
                         next_node_edges := [("Increment", no_label)];
                         end_edge := Some no_label; returns_base_node := false |});
        ("Boom", {| node := Boom; node_id := "Boom"; note := None;
                    next_node_edges := []; end_edge := Some no_label;
                    returns_base_node := false |});
        ("Junk", {| node := Junk; node_id := "Junk"; note := None;
                    next_node_edges := []; end_edge := Some no_label;
                    returns_base_node := false |})] |}.


(** JSON values, for a retriever to call. *)
#[warnings="-register-all"] Inductive JValue :=
| JStr (s : string)
| JList (l : list JValue)
| JObj (fields : list (string * JValue)).

Fixpoint remove_key (k : string) (d : list (string * JValue)) : list (string * JValue) :=
  match d with
  | [] => []
  | (k', v) :: d' => if String.eqb k k' then d' else (k', v) :: remove_key k d'
  end.

#[local] Instance JsonRuntime : Retrievers.Runtime := {|
  Retrievers.AgentContext := unit;
  Retrievers.Value := JValue;
  Retrievers.ArgsDict := list (string * JValue);
  Retrievers.ErrorDetails := unit;
  Retrievers.FunctionExn := Empty_set;
  Retrievers.JsonSchemaValue := unit;
  Retrievers.single := fun n d => [(n, JObj d)];
  Retrievers.pop := fun k d =>
    match Dict.get k d with
    | Some v => Some (v, remove_key k d)
    | None => None
    end;
  Retrievers.items := fun v =>
    match v with
    | JList l => Some l
    | JObj fields => Some (map (fun kv => JStr (fst kv)) fields)
    | JStr s => Some (map (fun c => JStr (String c EmptyString)) (list_ascii_of_string s))
    end
|}.

(** A retriever: arguments validate unless they are the text [bad], the
    function takes the call information and one positional argument and
    echoes the latter; one retry. *)
Definition echo : Retrievers.Retriever :=
  {| Retrievers.name := "echo"; Retrievers.description := "echo";
     Retrievers.function := fun args _ =>
       match args with
       | [Retrievers.Info _; Retrievers.Positional (JStr s)] => Ok s
       | _ => Ok EmptyString
       end;
     Retrievers.is_async := false;
     Retrievers.takes_info := true;
     Retrievers.single_arg_name := None;
     Retrievers.positional_fields := ["text"];
     Retrievers.var_positional_field := None;
     Retrievers.validator := fun json =>
       if String.eqb json "bad" then Raise tt else Ok [("text", JStr json)];
     Retrievers.json_schema := tt;
     Retrievers.max_retries := 1; Retrievers._current_retry := 0 |}.

Definition echo_call (json : string) : Retrievers.FunctionCall :=
  {| Retrievers.function_id := "1"; Retrievers.function_name := "echo";
     Retrievers.arguments := json |}.

End Examples.

(* ===================================================================== *)
(** * Notions to state the outcome of a node declaration with *)
(* ===================================================================== *)
Module NodeSpec.
Import Nodes.

(** Is the member of a return annotation one that [get_node_def] accepts:
    [BaseNode], a node type or [End]? *)
Definition accepted (r : ReturnType) : bool :=
  match r with
  | RBaseNode | RNode _ | REnd => true
  | ROther _ | RNotClass => false
  end.

(** The message of the [TypeError] raised on a member that is not
    accepted: the one of [get_node_def] for a class, the one of
    [issubclass] for what is no class. *)
Definition refusal (r : ReturnType) : string :=
  match r with
  | ROther shown => "Invalid return type: " +:+ shown
  | _ => "issubclass() arg 1 must be a class"
  end.

(** A node type whose [run] declares no return type, and one whose [run]
    is declared to return [Literal['x']]. *)
Definition Unannotated : NodeType :=
  {| cls_name := "Unannotated"; cls_node_id := None;
     cls_str := "Unannotated(BaseNode[None, int])";
     hints_error := Some (KeyError "return"); return_hint := []; cls_note := None |}.

Definition LiteralHint : NodeType :=
  {| cls_name := "LiteralHint"; cls_node_id := None;
     cls_str := "LiteralHint(BaseNode[None, int])";
     hints_error := None;
     return_hint := [(REnd, {| label := None |}); (RNotClass, {| label := None |})];
     cls_note := None |}.

End NodeSpec.

(* ===================================================================== *)
(** * Notions to state the behaviour of whole runs with *)
(* ===================================================================== *)
Module EngineSpec.
Import Nodes GraphDef State Engine.

Section Spec.
Context {P : Program}.

(** The live state object [s] is allocated, and every snapshot held by a
    record is an allocated object other than [s]. *)
Definition snapshots_apart (w : World) (s : loc) : Prop :=
  allocated (heap w) s /\
  forall r e c, events w !! r = Some e -> snapshot e = Some c ->
                allocated (heap w) c /\ c <> s.

(** [k] calls of [next] in a row, each returning the node that is run
    next. *)
Inductive steps_on (g : Graph) (state : option loc)
  : World -> Node -> list loc -> nat -> World -> Node -> list loc -> Prop :=
| steps_on_O w n history : steps_on g state w n history 0 w n history
| steps_on_S w n history w1 history1 n1 k w2 n2 history2 :
    next g w state n history = (w1, history1, Ok (RetNode n1)) ->
    steps_on g state w1 n1 history1 k w2 n2 history2 ->
    steps_on g state w n history (S k) w2 n2 history2.

(** The content of the live state at the start of each of the first [k]
    computations of a run that starts at node [n] with content [v], read off
    the computations alone. *)
Fixpoint live_contents (k : nat) (n : Node) (v : StateV) : list StateV :=
  match k with
  | O => []
  | S k' =>
      v :: match node_run n (Some v) with
           | (v', Ok (RetNode n')) => live_contents k' n' (default v v')
           | _ => []
           end
  end.

(** The outcome of a node computation as [next] passes it on. *)
Definition propagated (out : result NodeExn (Returned Node RunEnd))
  : result RunExn (Returned Node RunEnd) :=
  match out with
  | Ok next_node => Ok next_node
  | Raise e => Raise (NodeRaised e)
  end.

(** The error of [next] for a node that is not registered, and the error of
    [run] for a returned object that is neither a node nor an [End]. *)
Definition not_in_graph (n : Node) : RunExn :=
  GraphRuntimeError ("Node `" +:+ node_str n +:+ "` is not in the graph.").

Definition invalid_return (type_name : string) : RunExn :=
  GraphRuntimeError ("Invalid node return type: `" +:+ type_name
                     +:+ "`. Expected `BaseNode` or `End`.").
End Spec.

End EngineSpec.

(** A program of one node that always returns itself. *)
Module Spinner.
Import Nodes GraphDef State Engine.

Definition Spin : NodeType :=
  {| cls_name := "Spin"; cls_node_id := None; cls_str := "Spin(BaseNode[None, int])";
     hints_error := None; return_hint := [(RNode "Spin", {| label := None |})]; cls_note := None |}.

#[local] Instance Spinning : Program := {|
  StateV := Z;
  RunEnd := Z;
  Node := unit;
  NodeExn := Empty_set;
  RunInterrupt := Empty_set;
  datetime := nat;
  float := Z;
  type_of := fun _ => Spin;
  node_str := fun _ => "Spin()";
  node_run := fun _ s => (option_map (fun v => v + 1) s, Ok (RetNode tt));
  now_utc := fun k => k;
  perf_counter := fun k => Z.of_nat k;
  float_sub := Z.sub
|}.

Definition Spin_graph : Graph :=
  {| name := None;
     node_defs :=
       [("Spin", {| node := Spin; node_id := "Spin"; note := None;
                    next_node_edges := [("Spin", {| label := None |})];
                    end_edge := None; returns_base_node := false |})] |}.

Definition Spin_world : @World Spinning :=
  {| heap := {| cell := fun _ => 0; next_free := 1%nat |}; events := []; clock := 0%nat |}.


(** [k] calls of [next] in a row on the node, from the world [w]. *)
Fixpoint spin_steps (k : nat) (w : @World Spinning) (history : list State.loc)
  : @World Spinning * list State.loc :=
  match k with
  | O => (w, history)
  | S k' =>
      let '(w1, history1, _) := next (P := Spinning) Spin_graph w (Some 0%nat) tt history in
      spin_steps k' w1 history1
  end.

End Spinner.

(** The worlds that the runs of the example programs end in. *)
Module Worlds.
Import Nodes GraphDef State Engine Examples.

(** After the run of the counter from [Increment]. *)
Definition Counter_final : @World Counter :=
  match run (P := Counter) 7 Counter_graph Counter_world (Some 0%nat) Increment_instance with
  | Some (w, _) => w
  | None => Counter_world
  end.

(** After the run of [A] and [B]. *)
Definition AB_final : @World AB :=
  match run (P := AB) 7 AB_graph AB_world None A_instance with
  | Some (w, _) => w
  | None => AB_world
  end.

End Worlds.

(** State classes for the counter program: one that inherits [deep_copy],
    one that defines [deep_copy] to return the state itself, and one that
    inherits it but holds, from content 2 on, something that
    [copy.deepcopy] refuses. *)
Module Classes.
Import State Examples Copying.

#[local] Instance Inherited : StateClass Counter := {|
  CopyExn := string;
  deepcopy_error := fun _ => None;
  deep_copy_override := None
|}.

#[local] Instance Aliasing : StateClass Counter := {|
  CopyExn := string;
  deepcopy_error := fun _ => None;
  deep_copy_override := Some (fun h self => (h, Ok self))
|}.

#[local] Instance Locked : StateClass Counter :=
  Build_StateClass Counter string
    (fun v : Z => if 2 <=? v then Some "cannot pickle '_thread.lock' object" else None)
    None.

(** The worlds that the runs of the counter end in, with a state of class
    [Inherited] and with one of class [Locked]. *)
Definition Inherited_final : @World Counter :=
  match run (P := Counter) (C := Inherited) 7 Counter_graph Counter_world (Some 0%nat) Increment_instance with
  | Some (w, _) => w
  | None => Counter_world
  end.

Definition Locked_failed : @World Counter :=
  match run (P := Counter) (C := Locked) 7 Counter_graph Counter_world (Some 0%nat) Increment_instance with
  | Some (w, _) => w
  | None => Counter_world
  end.

End Classes.

(* ===================================================================== *)
(** * Notions to state the behaviour of the renderer with *)
(* ===================================================================== *)
Module MermaidSpec.
Import Nodes GraphDef Mermaid.



(** Does the text start with a line feed? *)
Definition starts_with_newline (s : string) : bool :=
  match s with
  | String c _ => Ascii.eqb c (ascii_of_nat 10)
  | EmptyString => false
  end.

(** Does the text hold two line feeds in a row? *)
Fixpoint double_newline (s : string) : bool :=
  match s with
  | String c (String c' _ as rest) =>
      (Ascii.eqb c (ascii_of_nat 10) && Ascii.eqb c' (ascii_of_nat 10)
       || double_newline rest)%bool
  | _ => false
  end.

(** The text without its line feeds. *)
Fixpoint without_newlines (s : string) : string :=
  match s with
  | EmptyString => EmptyString
  | String c rest =>
      if Ascii.eqb c (ascii_of_nat 10) then without_newlines rest
      else String c (without_newlines rest)
  end.

(** A node definition without its edge labels, and without its note. *)
Definition unlabelled (d : NodeDef) : NodeDef :=
  {| node := node d; node_id := node_id d; note := note d;
     next_node_edges := map (fun kv => (fst kv, {| label := None |})) (next_node_edges d);
     end_edge := option_map (fun _ => {| label := None |}) (end_edge d);
     returns_base_node := returns_base_node d |}.

Definition unnoted (d : NodeDef) : NodeDef :=
  {| node := node d; node_id := node_id d; note := None;
     next_node_edges := next_node_edges d; end_edge := end_edge d;
     returns_base_node := returns_base_node d |}.

(** The graph with every definition changed by [f]. *)
Definition map_defs (f : NodeDef -> NodeDef) (g : Graph) : Graph :=
  {| name := name g; node_defs := map (fun kv => (fst kv, f (snd kv))) (node_defs g) |}.

End MermaidSpec.

(* ===================================================================== *)
(** * mermaid.py: [request_image] and [save_image] *)
(* ===================================================================== *)
Module MermaidImage.
Import Nodes GraphDef Mermaid.

(** A value of the query parameters, a [dict[str, str | bool]]. *)
Inductive ParamValue :=
| PStr (s : string)
| PBool (b : bool).

(** The response of [httpx.get], as far as it is read. *)
Record Response := {
  is_success : bool;
  status_code : Z;
  text : string;
  content : string
}.

(** [str] of an [int]. *)
Definition str_int (z : Z) : string := DecimalString.NilZero.string_of_int (Z.to_int z).

(** Python truthiness of an optional [bool] and of an optional [int]. *)
Definition truthy_bool (b : option bool) : bool := default false b.
Definition truthy_int (z : option Z) : bool :=
  match z with Some z' => negb (z' =? 0) | None => false end.

(** The keys that [request_image] may set. *)
Definition param_keys : list string :=
  ["fit"; "landscape"; "paper"; "type"; "bgColor"; "theme"; "width"; "height"; "scale"].

Section Image.
(** The floats of [scale], with their truthiness and their [str]. *)
Variable float : Type.
Variable float_truthy : float -> bool.
Variable str_float : float -> string.

(** [MermaidConfig], a [TypedDict] with [total=False]: a key that is
    absent is [None] here ([NoIdents] for the two node arguments), which is
    what [kwargs.get] answers for it. *)
Record MermaidConfig := {
  start_node : NodeIdents;
  highlighted_nodes : NodeIdents;
  highlight_css : option string;
  edge_labels : option bool;
  notes : option bool;
  image_type : option string;
  pdf_fit : option bool;
  pdf_landscape : option bool;
  pdf_paper : option string;
  background_color : option string;
  theme : option string;
  width : option Z;
  height : option Z;
  scale : option float
}.

Definition truthy_float (x : option float) : bool :=
  match x with Some x' => float_truthy x' | None => false end.

(** [kwargs['image_type'] = ext] *)
Definition with_image_type (kwargs : MermaidConfig) (ext : string) : MermaidConfig :=
  {| start_node := start_node kwargs; highlighted_nodes := highlighted_nodes kwargs;
     highlight_css := highlight_css kwargs; edge_labels := edge_labels kwargs;
     notes := notes kwargs; image_type := Some ext;
     pdf_fit := pdf_fit kwargs; pdf_landscape := pdf_landscape kwargs;
     pdf_paper := pdf_paper kwargs; background_color := background_color kwargs;
     theme := theme kwargs; width := width kwargs; height := height kwargs;
     scale := scale kwargs |}.

(** [base64.b64encode(code.encode()).decode()], [textwrap.indent],
    [graph.nodes] (see [Mermaid]), and the remote service behind
    [httpx.get]. *)
Variable b64encode : string -> string.
Variable indent : string -> string -> string.
Variable nodes : option (list NodeType).
Variable httpx_get : string -> list (string * ParamValue) -> Response.

(** [params[k] = v] when [cond] holds. *)
Definition set_if (cond : bool) (k : string) (v : ParamValue)
    (params : list (string * ParamValue)) : list (string * ParamValue) :=
  if cond then Dict.set k v params else params.

(** [kwargs.get('image_type') == t] *)
Definition is_type (kwargs : MermaidConfig) (t : string) : bool :=
  match image_type kwargs with
  | Some t' => String.eqb t' t
  | None => false
  end.

(** The address and the parameters that [request_image] builds. *)
Definition request_of (code_base64 : string) (kwargs : MermaidConfig)
  : string * list (string * ParamValue) :=
  let '(url, params) :=
    if is_type kwargs "pdf"
    then ("https://mermaid.ink/pdf/" +:+ code_base64,
          set_if (truthy (pdf_paper kwargs)) "paper"
                 (PStr (default EmptyString (pdf_paper kwargs)))
            (set_if (truthy_bool (pdf_landscape kwargs)) "landscape" (PBool true)
               (set_if (truthy_bool (pdf_fit kwargs)) "fit" (PBool true) [])))
    else if is_type kwargs "svg"
    then ("https://mermaid.ink/svg/" +:+ code_base64, [])
    else ("https://mermaid.ink/img/" +:+ code_base64,
          set_if (truthy (image_type kwargs)) "type"
                 (PStr (default EmptyString (image_type kwargs))) []) in
  (url,
   set_if (truthy_float (scale kwargs)) "scale"
          (PStr (match scale kwargs with Some x => str_float x | None => EmptyString end))
     (set_if (truthy_int (height kwargs)) "height"
             (PStr (str_int (default 0 (height kwargs))))
        (set_if (truthy_int (width kwargs)) "width"
                (PStr (str_int (default 0 (width kwargs))))
           (set_if (truthy (theme kwargs)) "theme"
                   (PStr (default EmptyString (theme kwargs)))
              (set_if (truthy (background_color kwargs)) "bgColor"
                      (PStr (default EmptyString (background_color kwargs)))
                 params))))).

Inductive ImageExn :=
| RenderError (e : MermaidExn)
| ValueError (msg : string).

(** [request_image]: the requests it sends, and the bytes it returns or the
    error it raises. *)
Definition request_image (g : Graph) (kwargs : MermaidConfig)
  : list (string * list (string * ParamValue)) * result ImageExn string :=
  match generate_code indent nodes g (start_node kwargs) (highlighted_nodes kwargs)
          (default DEFAULT_HIGHLIGHT_CSS (highlight_css kwargs))
          (default true (edge_labels kwargs)) (default true (notes kwargs)) with
  | Raise e => ([], Raise (RenderError e))
  | Ok code =>
      let code_base64 := b64encode code in
      let '(url, params) := request_of code_base64 kwargs in
      let response := httpx_get url params in
      ([(url, params)],
       if negb (is_success response)
       then Raise (ValueError (str_int (status_code response)
                               +:+ " error generating image:" +:+ LF +:+ text response))
       else Ok (content response))
  end.

(** [Path(path).suffix] and [str.lower]. *)
Variable path_suffix : string -> string.
Variable lower : string -> string.

(** [s[1:]] *)
Definition drop_first (s : string) : string :=
  match s with
  | String _ rest => rest
  | EmptyString => EmptyString
  end.

(** [ext in ('png', 'webp', 'svg', 'pdf')] *)
Definition known_ext (ext : string) : bool :=
  existsb (String.eqb ext) ["png"; "webp"; "svg"; "pdf"].

(** The first statement of [save_image]: the image type is taken from the
    extension of the path when the arguments give none. *)
Definition save_kwargs (path : string) (kwargs : MermaidConfig) : MermaidConfig :=
  match image_type kwargs with
  | Some _ => kwargs
  | None =>
      let ext := drop_first (lower (path_suffix path)) in
      if known_ext ext then with_image_type kwargs ext else kwargs
  end.

(** [save_image]: the requests it sends, the files it writes (path and
    bytes), and whether it returns or raises. *)
Definition save_image (path : string) (g : Graph) (kwargs : MermaidConfig)
  : list (string * list (string * ParamValue)) * list (string * string)
    * result ImageExn unit :=
  match request_image g (save_kwargs path kwargs) with
  | (requests, Raise e) => (requests, [], Raise e)
  | (requests, Ok image_data) => (requests, [(path, image_data)], Ok tt)
  end.
End Image.

(** A service that answers every request with the same response; a
    configuration with no key; and the suffix of a file name with one dot
    at most. *)
Definition answering (r : Response) : string -> list (string * ParamValue) -> Response :=
  fun _ _ => r.

Definition no_config : MermaidConfig Z :=
  {| start_node := NoIdents; highlighted_nodes := NoIdents; highlight_css := None;
     edge_labels := None; notes := None; image_type := None; pdf_fit := None;
     pdf_landscape := None; pdf_paper := None; background_color := None;
     theme := None; width := None; height := None; scale := None |}.

Fixpoint simple_suffix (name : string) : string :=
  match name with
  | EmptyString => EmptyString
  | String c rest =>
      if Ascii.eqb c (ascii_of_nat 46) then String c rest else simple_suffix rest
  end.

End MermaidImage.

(* ===================================================================== *)
(** * Notions to state the layout of the arguments with *)
(* ===================================================================== *)
Module RetrieverSpec.
Import Retrievers.

Section Spec.
Context {R : Runtime}.

(** The values [vs] are those of the keys [fields], popped from the
    dictionary one after the other in this order; the last argument is the
    dictionary that is left. *)
Inductive popped : ArgsDict -> list string -> list Value -> ArgsDict -> Prop :=
| popped_nil d : popped d [] [] d
| popped_cons d field v d1 fields vs d2 :
    pop field d = Some (v, d1) ->
    popped d1 fields vs d2 ->
    popped d (field :: fields) (v :: vs) d2.

(** The dictionary that the fields are popped from: the validated
    arguments, under the single argument name if there is one. *)
Definition wrapped (self : Retriever) (args_dict : ArgsDict) : ArgsDict :=
  match single_arg_name self with
  | Some n => if String.eqb n EmptyString then args_dict else single n args_dict
  | None => args_dict
  end.

(** The call information, for a function that takes it. *)
Definition info_args (self : Retriever) (ctx : AgentContext) : list Arg :=
  if takes_info self
  then [Info {| context := ctx; retry := _current_retry self |}]
  else [].

(** The variable positional field, if the retriever has one: a name that
    is true in Python's sense. *)
Definition var_field (self : Retriever) : option string :=
  match var_positional_field self with
  | Some k => if String.eqb k EmptyString then None else Some k
  | None => None
  end.
End Spec.

End RetrieverSpec.

(* ===================================================================== *)
(** * The retry counter of a retriever *)
(* ===================================================================== *)
Module RetrieverFacts.
Import Retrievers Examples.

Section Facts.
Context {R : Runtime}.
Implicit Types (self : Retriever) (ctx : AgentContext).
Implicit Types (m : FunctionCall) (ms : list FunctionCall).

Lemma set_current_retry_twice self a b :
  set_current_retry (set_current_retry self a) b = set_current_retry self b.
Proof. reflexivity. Qed.

Lemma set_current_retry_same self : set_current_retry self (_current_retry self) = self.
Proof. now destruct self. Qed.

(** A call changes nothing of the retriever but its counter. *)
Lemma run_sets_counter self ctx m :
  fst (run self ctx m) = set_current_retry self (_current_retry (fst (run self ctx m))).
Proof.
  unfold run.
  destruct (validator self (arguments m)) as [a|e]; cbn.
  - destruct (call self ctx a); cbn; [reflexivity|].
    symmetry. apply set_current_retry_same.
  - destruct (_ <? _); reflexivity.
Qed.

Lemma validates_after_run self ctx m m' :
  validates (fst (run self ctx m)) m' = validates self m'.
Proof. now rewrite run_sets_counter. Qed.

Lemma max_retries_after_run self ctx m :
  max_retries (fst (run self ctx m)) = max_retries self.
Proof. now rewrite run_sets_counter. Qed.

Lemma executes_ok_after_run self ctx m ms :
  executes_ok self ctx ms -> executes_ok (fst (run self ctx m)) ctx ms.
Proof.
  intros H m' a c Hin Hv. rewrite run_sets_counter in Hv |- *.
  rewrite set_current_retry_twice. exact (H m' a c Hin Hv).
Qed.

Lemma executes_ok_incl self ctx ms ms' :
  (forall m, In m ms' -> In m ms) -> executes_ok self ctx ms -> executes_ok self ctx ms'.
Proof. intros Hincl H m a c Hin Hv. eapply H; eauto. Qed.

(** One call: the counter afterwards, and whether the call raised. *)
Lemma run_one self ctx m :
  executes_ok self ctx [m] ->
  _current_retry (fst (run self ctx m))
    = (if validates self m then 0 else _current_retry self + 1) /\
  is_raise (snd (run self ctx m))
    = (negb (validates self m)
       && (max_retries self <? _current_retry self + 1))%bool.
Proof.
  intros Hex. unfold run, validates.
  destruct (validator self (arguments m)) as [a|e] eqn:Hv; cbn.
  - specialize (Hex m a (_current_retry self) (or_introl eq_refl) Hv).
    rewrite set_current_retry_same in Hex.
    destruct (call self ctx a); cbn in *; [auto | discriminate].
  - destruct (_ <? _); cbn; auto.
Qed.

Lemma failure_streak_app start oks b :
  failure_streak start (oks ++ [b])
    = if b then 0 else failure_streak start oks + 1.
Proof.
  revert start. induction oks as [|o oks IH]; intros start; cbn.
  - destruct b; reflexivity.
  - destruct o; apply IH.
Qed.

(** The counter follows the current streak of failures, and a call raises
    exactly when it fails validation with the streak above the bound. *)
Lemma run_all_streak ms : forall self ctx,
  executes_ok self ctx ms ->
  let oks := map (validates self) ms in
  let c0 := _current_retry self in
  _current_retry (fst (run_all self ctx ms)) = failure_streak c0 oks /\
  forall i r, snd (run_all self ctx ms) !! i = Some r ->
    is_raise r
      = (negb (default true (oks !! i))
         && (max_retries self <? failure_streak c0 (take (S i) oks)))%bool.
Proof.
  induction ms as [|m ms IH]; intros self ctx Hex; cbn zeta.
  - cbn. split; auto. intros i r H. destruct i; discriminate.
  - assert (Hex1 : executes_ok self ctx [m]).
    { eapply executes_ok_incl; [|exact Hex]. intros m' [<-|[]]. now left. }
    assert (Hex2 : executes_ok (fst (run self ctx m)) ctx ms).
    { apply executes_ok_after_run. eapply executes_ok_incl; [|exact Hex].
      intros m' Hin. now right. }
    destruct (run_one self ctx m Hex1) as [Hc Hr].
    specialize (IH (fst (run self ctx m)) ctx Hex2). cbn zeta in IH.
    destruct IH as (IHc & IHr).
    assert (Hmap : map (validates (fst (run self ctx m))) ms = map (validates self) ms).
    { apply map_ext. intros m'. apply validates_after_run. }
    rewrite Hmap, max_retries_after_run in *.
    cbn [run_all map].
    destruct (run self ctx m) as [self1 r1] eqn:Hrun. cbn [fst snd] in *.
    destruct (run_all self1 ctx ms) as [self2 rs] eqn:Hall. cbn [fst snd] in *.
    split.
    + rewrite IHc, Hc. destruct (validates self m); reflexivity.
    + intros [|i] r Hi; cbn in Hi.
      * injection Hi as <-. rewrite Hr. cbn.
        destruct (validates self m); reflexivity.
      * rewrite (IHr i r Hi), Hc. cbn.
        destruct (validates self m); reflexivity.
Qed.

(** C10.  A retriever whose counter is at zero serves the calls [ms], and
    every call that validates is executed successfully.  Then after each
    prefix of the calls the counter equals the number of validation
    failures since the last successful call (zero right after a
    successful one), and a call raises exactly when it fails validation
    with more than [max_retries] consecutive failures up to and including
    it: the bound is on consecutive failures, not on their total. *)
Theorem retry_counter_bounds_consecutive_failures self ctx ms :
  _current_retry self = 0 ->
  executes_ok self ctx ms ->
  let oks := map (validates self) ms in
  (forall k, _current_retry (fst (run_all self ctx (take k ms)))
             = failure_streak 0 (take k oks)) /\
  (forall k m, ms !! k = Some m -> validates self m = true ->
               _current_retry (fst (run_all self ctx (take (S k) ms))) = 0) /\
  (forall i r, snd (run_all self ctx ms) !! i = Some r ->
     (is_raise r = true <->
      oks !! i = Some false /\ max_retries self < failure_streak 0 (take (S i) oks))).
Proof.
  intros H0 Hex oks.
  assert (Hpre : forall k, _current_retry (fst (run_all self ctx (take k ms)))
                           = failure_streak 0 (take k oks)).
  { intros k.
    assert (Hexk : executes_ok self ctx (take k ms)).
    { eapply executes_ok_incl; [|exact Hex]. intros m Hin.
      apply list_elem_of_In. apply list_elem_of_In in Hin.
      apply elem_of_take in Hin as (i & Hi & _).
      eapply list_elem_of_lookup_2; exact Hi. }
    destruct (run_all_streak (take k ms) self ctx Hexk) as [Hc _].
    rewrite Hc, H0. unfold oks. now rewrite firstn_map. }
  split; [exact Hpre|]. split.
  - intros k m Hk Hv. rewrite Hpre.
    assert (Hoks : oks !! k = Some true).
    { unfold oks.
      change (map (validates self) ms) with (validates self <$> ms).
      rewrite list_lookup_fmap, Hk. cbn. now rewrite Hv. }
    rewrite (take_S_r _ _ _ Hoks). now rewrite failure_streak_app.
  - intros i r Hi.
    destruct (run_all_streak ms self ctx Hex) as [_ Hr].
    rewrite (Hr i r Hi), H0. fold oks.
    destruct (oks !! i) as [[|]|] eqn:Ho; cbn.
    + split; [discriminate | intros [? _]; discriminate].
    + rewrite Z.ltb_lt. split; [intros ?; split; auto | intros [_ ?]; auto].
    + split; [discriminate | intros [? _]; discriminate].
Qed.
End Facts.

Section OnEcho.
#[local] Existing Instance JsonRuntime.

(** The statement at the retriever [echo] (one retry) and five calls that
    fail, succeed, fail, succeed, fail: three failures in all, none of them
    raises. *)
Lemma retry_counter_witness :
  _current_retry echo = 0 /\
  executes_ok echo tt (map echo_call ["bad"; "good"; "bad"; "good"; "bad"]) /\
  map is_raise (snd (run_all echo tt (map echo_call ["bad"; "good"; "bad"; "good"; "bad"])))
    = [false; false; false; false; false] /\
  forall i r,
    snd (run_all echo tt (map echo_call ["bad"; "good"; "bad"; "good"; "bad"])) !! i = Some r ->
    (is_raise r = true <->
     map (validates echo) (map echo_call ["bad"; "good"; "bad"; "good"; "bad"]) !! i = Some false /\
     max_retries echo
       < failure_streak 0
           (take (S i) (map (validates echo) (map echo_call ["bad"; "good"; "bad"; "good"; "bad"])))).
Proof.
  assert (Hex : executes_ok echo tt (map echo_call ["bad"; "good"; "bad"; "good"; "bad"])).
  { intros m a c _ Hv. cbn in Hv.
    destruct (String.eqb (arguments m) "bad"); [discriminate|].
    injection Hv as <-. reflexivity. }
  split; [reflexivity|]. split; [exact Hex|]. split; [reflexivity|].
  apply (retry_counter_bounds_consecutive_failures echo tt
           (map echo_call ["bad"; "good"; "bad"; "good"; "bad"]) eq_refl Hex).
Defined.

(** Those five calls hold three failures, more than the bound of one, and
    the calls that validate return what was sent. *)
Example three_failures_in_all :
  total_failures (map (validates echo) (map echo_call ["bad"; "good"; "bad"; "good"; "bad"])) = 3
  /\ max_retries echo = 1
  /\ snd (run echo tt (echo_call "good")) = Ok (FunctionResponse "1" "echo" "good").
Proof. repeat split. Qed.

(** [reset] puts the counter back to zero. *)
Example reset_after_failure :
  _current_retry (fst (run echo tt (echo_call "bad"))) = 1 /\
  _current_retry (reset (fst (run echo tt (echo_call "bad")))) = 0.
Proof. split; reflexivity. Qed.

(** Two failures in a row exceed the bound of one retry: the second call
    raises. *)
Example two_failures_in_a_row_raise :
  map is_raise (snd (run_all echo tt (map echo_call ["bad"; "bad"]))) = [false; true].
Proof. reflexivity. Qed.
End OnEcho.

End RetrieverFacts.

(* ===================================================================== *)
(** * The execution engine: [next] and [run] *)
(* ===================================================================== *)
Module EngineFacts.
Import Nodes GraphDef State Engine Examples.

Section Facts.
Context {P : Program}.
Implicit Types (g : Graph) (w : World) (state : option loc) (n : Node).
Implicit Types (history : list loc).

Lemma _deep_copy_state_spec (h : Heap StateV) state :
  is_copy_of h state (fst (_deep_copy_state h state)) (snd (_deep_copy_state h state)).
Proof. destruct state; cbn; auto. Qed.

Lemma new_NodeEvent_spec w state n :
  exists c h,
    is_copy_of (heap w) state h c /\
    new_NodeEvent w state n
      = ({| heap := h;
            events := events w ++ [NodeEvent c n (now_utc (clock w)) None];
            clock := S (clock w) |},
         length (events w)).
Proof.
  unfold new_NodeEvent.
  pose proof (_deep_copy_state_spec (heap (tick w)) state) as H.
  destruct (_deep_copy_state (heap (tick w)) state) as [h c].
  exists c, h. split; [exact H | reflexivity].
Qed.

Lemma new_EndEvent_spec w state data :
  exists c h,
    is_copy_of (heap w) state h c /\
    new_EndEvent w state data
      = ({| heap := h;
            events := events w ++ [EndEvent c data (now_utc (clock w))];
            clock := S (clock w) |},
         length (events w)).
Proof.
  unfold new_EndEvent.
  pose proof (_deep_copy_state_spec (heap (tick w)) state) as H.
  destruct (_deep_copy_state (heap (tick w)) state) as [h c].
  exists c, h. split; [exact H | reflexivity].
Qed.

Lemma new_InterruptEvent_spec w state i :
  exists c h,
    is_copy_of (heap w) state h c /\
    new_InterruptEvent w state i
      = ({| heap := h;
            events := events w ++ [InterruptEvent c i (now_utc (clock w))];
            clock := S (clock w) |},
         length (events w)).
Proof.
  unfold new_InterruptEvent.
  pose proof (_deep_copy_state_spec (heap (tick w)) state) as H.
  destruct (_deep_copy_state (heap (tick w)) state) as [h c].
  exists c, h. split; [exact H | reflexivity].
Qed.

(** A node computation touches neither the records nor the clock. *)
Lemma run_node_frame w state n :
  events (fst (run_node w state n)) = events w /\
  clock (fst (run_node w state n)) = clock w.
Proof.
  unfold run_node. destruct state as [s|]; cbn; auto.
  destruct (node_run n (Some (cell (heap w) s))) as [[v|] out]; cbn; auto.
Qed.

(** What the computation produces is decided by the content of the live
    state when it starts. *)
Lemma run_node_outcome w state n :
  snd (run_node w state n)
    = snd (node_run n (option_map (cell (heap w)) state)).
Proof.
  unfold run_node. destruct state as [s|]; cbn; auto.
  destruct (node_run n (Some (cell (heap w) s))) as [[v|] out]; cbn; auto.
Qed.

Lemma next_begin_unregistered g w state n history :
  Dict.mem (node_get_id n) (node_defs g) = false ->
  next_begin g w state n history
    = Raise (GraphRuntimeError ("Node `" +:+ node_str n +:+ "` is not in the graph.")).
Proof. intros H. unfold next_begin. now rewrite H. Qed.

(** The world in which the computation of a registered node starts. *)
Lemma next_begin_registered g w state n history :
  Dict.mem (node_get_id n) (node_defs g) = true ->
  exists c h,
    is_copy_of (heap w) state h c /\
    next_begin g w state n history
      = Ok ({| heap := h;
               events := events w ++ [NodeEvent c n (now_utc (clock w)) None];
               clock := S (S (clock w)) |},
            history ++ [length (events w)],
            length (events w),
            perf_counter (S (clock w))).
Proof.
  intros H. unfold next_begin. rewrite H. cbn [negb].
  destruct (new_NodeEvent_spec w state n) as (c & h & Hc & ->).
  exists c, h. split; [exact Hc | reflexivity].
Qed.

(** Writing the duration into the record appended last. *)
Lemma next_end_events w (es : list HistoryStep) c n ts start :
  events w = es ++ [NodeEvent c n ts None] ->
  events (next_end w (length es) start)
    = es ++ [NodeEvent c n ts (Some (float_sub (perf_counter (clock w)) start))].
Proof.
  intros H. unfold next_end. cbn [events]. rewrite H.
  rewrite alter_app_r_alt by lia.
  replace (length es - length es)%nat with 0%nat by lia. reflexivity.
Qed.


(** C9.  When the computation of a registered node raises, [next] raises
    with the step record still appended to the history and its duration
    still unset; when the node is not registered, [next] raises with the
    world and the history as they were. *)
Theorem next_failure_and_history g w state n history :
  (forall w1 history1 step start w2 e,
     next_begin g w state n history = Ok (w1, history1, step, start) ->
     run_node w1 state n = (w2, Raise e) ->
     next g w state n history = (w2, history ++ [step], Raise (NodeRaised e)) /\
     exists c ts,
       events w2 = events w ++ [NodeEvent c n ts None] /\
       events w2 !! step = Some (NodeEvent c n ts None)) /\
  (Dict.mem (node_get_id n) (node_defs g) = false ->
   next g w state n history
     = (w, history,
        Raise (GraphRuntimeError ("Node `" +:+ node_str n +:+ "` is not in the graph.")))).
Proof.
  split.
  - intros w1 history1 step start w2 e Hb Hrun.
    destruct (Dict.mem (node_get_id n) (node_defs g)) eqn:Hreg.
    + destruct (next_begin_registered g w state n history Hreg) as (c & h & _ & Hb').
      rewrite Hb' in Hb. injection Hb as <- <- <- <-.
      pose proof (run_node_frame
                    {| heap := h;
                       events := events w ++ [NodeEvent c n (now_utc (clock w)) None];
                       clock := S (S (clock w)) |} state n) as [He _].
      rewrite Hrun in He. cbn [fst events] in He.
      split.
      * unfold next. rewrite Hb', Hrun. reflexivity.
      * exists c, (now_utc (clock w)). split; [exact He|].
        rewrite He. apply list_lookup_middle. reflexivity.
    + rewrite (next_begin_unregistered g w state n history Hreg) in Hb. discriminate.
  - intros H. unfold next.
    now rewrite (next_begin_unregistered g w state n history H).
Qed.

(** A call of [next] that returns has appended one finished step record. *)
Lemma next_ok_inv g w state n history w1 history1 r :
  next g w state n history = (w1, history1, Ok r) ->
  history1 = history ++ [length (events w)] /\
  exists e, is_finished_step e = true /\ events w1 = events w ++ [e].
Proof.
  intros H.
  destruct (Dict.mem (node_get_id n) (node_defs g)) eqn:Hreg.
  - destruct (next_begin_registered g w state n history Hreg) as (c & h & _ & Hb).
    unfold next in H. rewrite Hb in H.
    destruct (run_node _ state n) as [w2 [r'|e]] eqn:Hr; [|discriminate].
    pose proof (run_node_frame
                  {| heap := h;
                     events := events w ++ [NodeEvent c n (now_utc (clock w)) None];
                     clock := S (S (clock w)) |} state n) as [He _].
    rewrite Hr in He. cbn [fst events] in He.
    injection H as <- <- <-. split; [reflexivity|].
    eexists. split; [|apply next_end_events; exact He]. reflexivity.
  - unfold next in H.
    rewrite (next_begin_unregistered g w state n history Hreg) in H. discriminate.
Qed.

(** The history and the records after [k] computations that reach [End]. *)
Lemma reaches_end_records g state w n history k w1 history1 data :
  reaches_end g state w n history k w1 history1 data ->
  history1 = history ++ seq (length (events w)) k /\
  exists steps,
    length steps = k /\
    Forall (fun e => is_finished_step e = true) steps /\
    events w1 = events w ++ steps.
Proof.
  induction 1 as [w n history w1 history1 data Hn
                 |w n history w1 history1 n1 k w2 history2 data Hn _ IH].
  - destruct (next_ok_inv _ _ _ _ _ _ _ _ Hn) as (-> & e & He & Hev).
    split; [reflexivity|]. exists [e]. repeat split; auto.
  - destruct (next_ok_inv _ _ _ _ _ _ _ _ Hn) as (-> & e & He & Hev).
    destruct IH as (-> & steps & Hlen & Hall & Hev2).
    rewrite Hev in *. rewrite length_app in *. cbn [length] in *.
    split.
    + rewrite <- app_assoc. cbn [seq app]. do 3 f_equal. lia.
    + exists (e :: steps). split; [cbn; lia|]. split; [constructor; auto|].
      rewrite Hev2, <- app_assoc. reflexivity.
Qed.



(** Conversely, a run that returns a result has reached an [End]. *)
Lemma run_loop_ok_reaches_end g state fuel : forall w n history w2 data history2,
  run_loop fuel g w state n history = Some (w2, Ok (data, history2)) ->
  exists k w1 history1,
    (k <= fuel)%nat /\ reaches_end g state w n history k w1 history1 data.
Proof.
  induction fuel as [|fuel IH]; intros w n history w2 data history2 H;
    cbn [run_loop] in H; [discriminate|].
  destruct (next g w state n history) as [[w1 history1] [[n1|d|t]|e]] eqn:Hn.
  - destruct (IH _ _ _ _ _ _ H) as (k & w1' & h1' & Hk & Hreach).
    exists (S k), w1', h1'. split; [lia|]. eapply reaches_end_later; eauto.
  - destruct (new_EndEvent w1 state d). injection H as <- <- <-.
    exists 1%nat, w1, history1. split; [lia|]. now apply reaches_end_now.
  - discriminate.
  - discriminate.
Qed.


Lemma new_record_spec w state k :
  exists c h e,
    is_copy_of (heap w) state h c /\ snapshot e = c /\
    new_record w state k
      = ({| heap := h; events := events w ++ [e]; clock := S (clock w) |},
         length (events w)).
Proof.
  destruct k as [n|i|d]; cbn [new_record].
  - destruct (new_NodeEvent_spec w state n) as (c & h & Hc & ->).
    eexists c, h, _. split; [exact Hc|]. split; [|reflexivity]. reflexivity.
  - destruct (new_InterruptEvent_spec w state i) as (c & h & Hc & ->).
    eexists c, h, _. split; [exact Hc|]. split; [|reflexivity]. reflexivity.
  - destruct (new_EndEvent_spec w state d) as (c & h & Hc & ->).
    eexists c, h, _. split; [exact Hc|]. split; [|reflexivity]. reflexivity.
Qed.


(** The same inside [next]: whatever the computation of the node does to
    the live state, the snapshot of its step record holds the content the
    state had when the record was created. *)
Lemma next_keeps_snapshot g w (s : loc) n history :
  Dict.mem (node_get_id n) (node_defs g) = true ->
  allocated (heap w) s ->
  snapshot_content (fst (fst (next g w (Some s) n history))) (length (events w))
    = Some (Some (cell (heap w) s)).
Proof.
  intros Hreg Hs. unfold allocated in Hs.
  destruct (next_begin_registered g w (Some s) n history Hreg)
    as (c & h & [-> ->] & Hb).
  unfold next. rewrite Hb. unfold run_node. cbn [heap alloc fst cell].
  destruct (Nat.eqb_spec s (next_free (heap w))) as [E|_]; [lia|].
  destruct (node_run n (Some (cell (heap w) s))) as [[v|] [r|e]];
    cbn [fst]; unfold snapshot_content, next_end, mutate, with_heap;
    cbn [events heap];
    rewrite ?list_lookup_alter_eq, list_lookup_middle by reflexivity;
    cbn; rewrite Nat.eqb_refl;
    try (destruct (Nat.eqb_spec (next_free (heap w)) s); [lia|]); reflexivity.
Qed.
End Facts.

Section OnCounter.
#[local] Existing Instance Counter.


(** C9 at the counter program: [Boom] raises and its record stays without a
    duration; [Stray] is refused and nothing changes. *)
Lemma next_failure_witness :
  (exists w1 step start w2,
     next_begin Counter_graph Counter_world (Some 0%nat) Boom_instance []
       = Ok (w1, [step], step, start) /\
     run_node w1 (Some 0%nat) Boom_instance = (w2, Raise "boom") /\
     next Counter_graph Counter_world (Some 0%nat) Boom_instance []
       = (w2, [] ++ [step], Raise (NodeRaised "boom")) /\
     exists c ts,
       events w2 = events Counter_world ++ [NodeEvent c Boom_instance ts None] /\
       events w2 !! step = Some (NodeEvent c Boom_instance ts None)) /\
  next Counter_graph Counter_world (Some 0%nat) Stray_instance []
    = (Counter_world, [],
       Raise (GraphRuntimeError ("Node `" +:+ node_str Stray_instance
                                 +:+ "` is not in the graph."))).
Proof.
  split.
  - eexists _, _, _, _. split; [reflexivity|]. split; [reflexivity|].
    eapply (proj1 (next_failure_and_history
                     Counter_graph Counter_world (Some 0%nat) Boom_instance []));
      reflexivity.
  - apply (proj2 (next_failure_and_history
                    Counter_graph Counter_world (Some 0%nat) Stray_instance [])).
    reflexivity.
Defined.

(** The records after that call, evaluated. *)
Example next_step_record_evaluated :
  let '(w, history, r) :=
    next Counter_graph Counter_world (Some 0%nat) Increment_instance [] in
  events w = [NodeEvent (Some 1%nat) Increment_instance 0%nat (Some 1)] /\
  history = [0%nat] /\ r = Ok (RetNode Increment_instance) /\
  cell (heap w) 0%nat = 1 /\ cell (heap w) 1%nat = 0.
Proof. cbn. repeat split. Qed.

(** [Boom] raises after it has changed the state: its step record stays,
    without a duration.  [Stray] is not registered: nothing is recorded. *)
Example next_failures_evaluated :
  (let '(w, history, r) :=
     next Counter_graph Counter_world (Some 0%nat) Boom_instance [] in
   events w = [NodeEvent (Some 1%nat) Boom_instance 0%nat None] /\
   history = [0%nat] /\ r = Raise (NodeRaised "boom")) /\
  (let '(w, history, r) :=
     next Counter_graph Counter_world (Some 0%nat) Stray_instance [] in
   events w = [] /\ history = [] /\
   r = Raise (GraphRuntimeError "Node `Stray()` is not in the graph.")).
Proof. cbn. repeat split. Qed.


(** The records of that run, with the content of their snapshots: the
    state as it was when each record was created. *)
Example run_counter_evaluated :
  match run 7 Counter_graph Counter_world (Some 0%nat) Increment_instance with
  | Some (w, r) =>
      r = Ok (3, [0; 1; 2; 3]%nat) /\
      map kind (events w) = ["step"; "step"; "step"; "end"] /\
      map (snapshot_content w) [0; 1; 2; 3]%nat
        = [Some (Some 0); Some (Some 1); Some (Some 2); Some (Some 3)] /\
      cell (heap w) 0%nat = 3
  | None => False
  end.
Proof. cbn. repeat split. Qed.

(** A step record is created with the state at 0, then 5 and 7 are written
    to the state: the state holds 7, the snapshot still 0. *)
Example snapshot_isolation_evaluated :
  let w1 := fst (new_record Counter_world (Some 0%nat) (StepOf Increment_instance)) in
  let r := snd (new_record Counter_world (Some 0%nat) (StepOf Increment_instance)) in
  let w2 := mutate_all w1 0%nat [5; 7] in
  cell (heap w2) 0%nat = 7 /\ snapshot_content w2 r = Some (Some 0).
Proof. cbn. split; reflexivity. Qed.

(** An engine that returns an object that is neither a node nor an [End]:
    [next] hands it on, and [run] raises. *)
Example run_junk_evaluated :
  snd (next Counter_graph Counter_world (Some 0%nat) Junk_instance [])
    = Ok (RetOther "int") /\
  option_map snd (run 7 Counter_graph Counter_world (Some 0%nat) Junk_instance)
    = Some (Raise (GraphRuntimeError
                     "Invalid node return type: `int`. Expected `BaseNode` or `End`.")).
Proof. cbn. repeat split. Qed.
End OnCounter.

Section OnAB.
#[local] Existing Instance AB.

(** C1, as the code has it.  The graph built from [A] and [B] is
    [AB_graph]; [run] with no state and an [A] instance returns 42 and a
    history of three records: the step of [A], the step of [B], and the
    end record with 42. *)
Theorem run_A_B_history :
  (forall comma_and, Graph_init comma_and [A; B] None = Ok AB_graph) /\
  forall fuel,
    exists w,
      run (2 + fuel) AB_graph AB_world None A_instance
        = Some (w, Ok (42, [0; 1; 2]%nat)) /\
      records w [0; 1; 2]%nat
        = [Some (NodeEvent None A_instance 0%nat (Some 1));
           Some (NodeEvent None B_instance 3%nat (Some 1));
           Some (EndEvent None 42 6%nat)].
Proof.
  split; [reflexivity|].
  intros fuel. eexists. split; reflexivity.
Qed.

(** The history of that run does not have two records. *)
Lemma run_A_B_history_not_two_records :
  ~ (exists fuel w history,
       run fuel AB_graph AB_world None A_instance = Some (w, Ok (42, history)) /\
       length history = 2%nat).
Proof.
  intros (fuel & w & history & Hrun & Hlen).
  destruct fuel as [|[|fuel]]; cbn in Hrun; try discriminate.
  injection Hrun as _ <-. cbn in Hlen. discriminate.
Qed.
End OnAB.

End EngineFacts.

(* ===================================================================== *)
(** * Graph construction: duplicate identities and dangling references *)
(* ===================================================================== *)
Module GraphFacts.
Import Nodes GraphDef Mermaid MermaidSpec Examples.

(** ** Dictionaries *)


Lemma set_absent {V} (k : string) (v : V) d :
  Dict.get k d = None -> Dict.set k v d = d ++ [(k, v)].
Proof.
  induction d as [|[k' v'] d IH]; cbn; [reflexivity|].
  destruct (String.eqb_spec k k'); [discriminate|].
  intros H. now rewrite IH.
Qed.

Lemma get_None_keys {V} (k : string) (d : list (string * V)) :
  Dict.get k d = None <-> ~ In k (Dict.keys d).
Proof.
  induction d as [|[k' v'] d IH]; cbn.
  - tauto.
  - destruct (String.eqb_spec k k') as [->|Hne].
    + split; [discriminate | intros H; exfalso; apply H; now left].
    + rewrite IH. split; [intros H [E|E]; [congruence | tauto] | tauto].
Qed.

Lemma mem_true_keys {V} (k : string) (d : list (string * V)) :
  Dict.mem k d = true <-> In k (Dict.keys d).
Proof.
  unfold Dict.mem. pose proof (get_None_keys k d) as H.
  destruct (Dict.get k d).
  - split; [intros _|reflexivity].
    destruct (in_dec string_dec k (Dict.keys d)) as [Hin|Hn]; [exact Hin|].
    apply H in Hn. discriminate.
  - split; [discriminate|]. intros Hin. exfalso. now apply (proj1 H).
Qed.

Lemma get_app {V} (k : string) (d1 d2 : list (string * V)) :
  Dict.get k (d1 ++ d2)
    = match Dict.get k d1 with Some v => Some v | None => Dict.get k d2 end.
Proof.
  induction d1 as [|[k' v'] d1 IH]; cbn; [reflexivity|].
  destruct (String.eqb k k'); [reflexivity | exact IH].
Qed.

Lemma get_In {V} (k : string) (v : V) d : Dict.get k d = Some v -> In (k, v) d.
Proof.
  induction d as [|[k' v'] d IH]; cbn; [discriminate|].
  destruct (String.eqb_spec k k') as [->|Hne].
  - intros [= ->]. now left.
  - intros H. right. now apply IH.
Qed.


(** ** [setdefault] followed by [append] *)


Lemma keys_setdefault_append k x d :
  Dict.keys (Dict.setdefault_append k x d)
    = if Dict.mem k d then Dict.keys d else Dict.keys d ++ [k].
Proof.
  unfold Dict.mem, Dict.keys.
  induction d as [|[k0 xs] d IH]; cbn; [reflexivity|].
  destruct (String.eqb_spec k k0) as [->|H0]; cbn; [reflexivity|].
  rewrite IH. now destruct (Dict.get k d).
Qed.

(** The loops of [_validate_edges] group the unresolved references by the
    identity referred to. *)
Lemma collect_node_fold known node_id edges : forall bad_edges,
  collect_node known node_id edges bad_edges
    = fold_left add_reference
        (List.filter (fun r => negb (Dict.mem (fst r) known))
                (map (fun edge => (edge, node_id)) edges))
        bad_edges.
Proof.
  induction edges as [|edge rest IH]; intros bad_edges; cbn; [reflexivity|].
  rewrite IH. now destruct (Dict.mem edge known).
Qed.

Lemma collect_bad_edges_fold known items : forall bad_edges,
  collect_bad_edges known items bad_edges
    = fold_left add_reference
        (List.filter (fun r => negb (Dict.mem (fst r) known)) (references items))
        bad_edges.
Proof.
  induction items as [|[node_id node_def] rest IH]; intros bad_edges;
    [reflexivity|].
  cbn [collect_bad_edges]. rewrite IH, collect_node_fold.
  change (references ((node_id, node_def) :: rest))
    with (map (fun edge => (edge, node_id)) (Dict.keys (next_node_edges node_def))
          ++ references rest).
  now rewrite List.filter_app, fold_left_app.
Qed.


Lemma grouped_keys refs : forall bad_edges,
  List.NoDup (Dict.keys bad_edges) ->
  List.NoDup (Dict.keys (fold_left add_reference refs bad_edges)) /\
  forall k, In k (Dict.keys (fold_left add_reference refs bad_edges))
            <-> In k (Dict.keys bad_edges) \/ In k (map fst refs).
Proof.
  induction refs as [|[e id] refs IH]; intros bad_edges Hnd; cbn.
  - split; [exact Hnd | tauto].
  - assert (Hk : forall k, In k (Dict.keys (add_reference bad_edges (e, id)))
                           <-> In k (Dict.keys bad_edges) \/ e = k).
    { intros k. unfold add_reference. cbn [fst snd]. rewrite keys_setdefault_append.
      destruct (Dict.mem e bad_edges) eqn:Hm.
      - apply mem_true_keys in Hm. split; [tauto | intros [H| <-]; assumption].
      - rewrite in_app_iff. cbn. tauto. }
    assert (Hnd' : List.NoDup (Dict.keys (add_reference bad_edges (e, id)))).
    { unfold add_reference. cbn [fst snd]. rewrite keys_setdefault_append.
      destruct (Dict.mem e bad_edges) eqn:Hm; [exact Hnd|].
      apply List.NoDup_app; [exact Hnd | repeat constructor; cbn; tauto |].
      intros k Hin [<-|[]].
      apply mem_true_keys in Hin. congruence. }
    destruct (IH _ Hnd') as [IH1 IH2]. split; [exact IH1|].
    intros k. rewrite IH2, Hk. tauto.
Qed.


Lemma references_In defs k id :
  In (k, id) (references defs)
  <-> exists d, In (id, d) defs /\ In k (Dict.keys (next_node_edges d)).
Proof.
  unfold references. rewrite in_flat_map. split.
  - intros ([id' d] & Hin & Hmap). cbn [fst snd] in Hmap.
    apply in_map_iff in Hmap as (e & [= <- <-] & He). eauto.
  - intros (d & Hin & Hk). exists (id, d). split; [exact Hin|].
    cbn [fst snd]. apply in_map_iff. eauto.
Qed.

Lemma fold_add_reference_nil refs :
  fold_left add_reference refs [] = [] -> refs = [].
Proof.
  destruct refs as [|[e id] refs]; [reflexivity|]. intros H.
  assert (Hk : In e (Dict.keys (fold_left add_reference ((e, id) :: refs) []))).
  { apply (grouped_keys ((e, id) :: refs) [] (List.NoDup_nil _)). right. now left. }
  rewrite H in Hk. destruct Hk.
Qed.

Lemma unresolved_references_In defs k id :
  In (k, id) (unresolved_references defs)
  <-> exists d, In (id, d) defs /\ In k (Dict.keys (next_node_edges d)) /\
                Dict.mem k defs = false.
Proof.
  unfold unresolved_references. rewrite filter_In, references_In.
  cbn [fst]. rewrite negb_true_iff. split.
  - intros [(d & H1 & H2) H3]. eauto.
  - intros (d & H1 & H2 & H3). eauto.
Qed.

(** Validation passes exactly when no reference is unresolved. *)
Lemma _validate_edges_ok_iff comma_and defs :
  unresolved_references defs = [] <-> _validate_edges comma_and defs = Ok tt.
Proof.
  unfold _validate_edges. rewrite collect_bad_edges_fold.
  fold (unresolved_references defs). split.
  - intros ->. reflexivity.
  - destruct (fold_left add_reference (unresolved_references defs) []) eqn:E;
      [|discriminate].
    intros _. now apply fold_add_reference_nil.
Qed.


(** Two constructions that fail on unresolved references: one missing
    identity, and two of them. *)
Example dangling_references_evaluated :
  Graph_init comma_and [ToZ1; Leaf] None
    = Raise (GraphSetupError "`Z` is referenced by `ToZ1` but not included in the graph.") /\
  Graph_init comma_and [ToZ1; ToZ2; Leaf] None
    = Raise (GraphSetupError
               ("Nodes are referenced in the graph but not included in the graph:"
                +:+ LF +:+ " `Z` is referenced by `ToZ1`, and `ToZ2`"
                +:+ LF +:+ " `Y` is referenced by `ToZ2`")).
Proof. split; reflexivity. Qed.

(** ** Registration *)

Lemma has_duplicates_false_iff ids : has_duplicates ids = false <-> List.NoDup ids.
Proof.
  induction ids as [|i rest IH]; cbn.
  - split; [constructor | reflexivity].
  - rewrite orb_false_iff, IH, List.NoDup_cons_iff. split.
    + intros [Hex Hnd]. split; [|exact Hnd]. intros Hin.
      assert (existsb (String.eqb i) rest = true); [|congruence].
      apply existsb_exists. exists i. split; [exact Hin | apply String.eqb_refl].
    + intros [Hnotin Hnd]. split; [|exact Hnd].
      destruct (existsb (String.eqb i) rest) eqn:E; [|reflexivity].
      apply existsb_exists in E as (x & Hin & Hx).
      apply String.eqb_eq in Hx. subst x. contradiction.
Qed.

Lemma get_node_def_ok cls d :
  get_node_def cls = Ok d ->
  node d = cls /\ node_id d = get_id cls /\
  classify (return_hint cls) [] None false
    = Ok (next_node_edges d, end_edge d, returns_base_node d).
Proof.
  unfold get_node_def. destruct (hints_error cls); [discriminate|].
  destruct (classify (return_hint cls) [] None false) as [[[es ee] b]|e];
    [|discriminate].
  intros [= <-]. cbn. auto.
Qed.

Lemma keys_set {V} (k k' : string) (v : V) d :
  In k' (Dict.keys (Dict.set k v d)) <-> k' = k \/ In k' (Dict.keys d).
Proof.
  unfold Dict.keys. induction d as [|[k0 v0] d IH]; cbn.
  - intuition congruence.
  - destruct (String.eqb_spec k k0) as [->|Hne]; cbn.
    + intuition congruence.
    + rewrite IH. intuition congruence.
Qed.

(** The edges and the wildcard flag that [get_node_def] derives: an edge
    for each node type named in the return annotation, the flag when
    [BaseNode] itself is among its members. *)
Lemma classify_spec hints : forall es ee b es' ee' b',
  classify hints es ee b = Ok (es', ee', b') ->
  (forall k, In k (Dict.keys es')
             <-> In k (Dict.keys es) \/ In (RNode k) (map fst hints)) /\
  (b' = true <-> b = true \/ In RBaseNode (map fst hints)).
Proof.
  induction hints as [|[r e] hints IH]; intros es ee b es' ee' b' H; cbn in H.
  - injection H as <- <- <-. cbn. split; [intros k|]; tauto.
  - destruct r as [|target| |shown|]; [| | |discriminate|discriminate];
      destruct (IH _ _ _ _ _ _ H) as [IHk IHb]; cbn [map fst In]; split.
    + intros k. rewrite IHk. intuition congruence.
    + rewrite IHb. intuition congruence.
    + intros k. rewrite IHk, keys_set. intuition congruence.
    + rewrite IHb. intuition congruence.
    + intros k. rewrite IHk. intuition congruence.
    + rewrite IHb. intuition congruence.
Qed.

Lemma _register_node_ok defs cls defs' :
  _register_node defs cls = Ok defs' ->
  Dict.get (get_id cls) defs = None /\
  exists d, get_node_def cls = Ok d /\ defs' = defs ++ [(get_id cls, d)].
Proof.
  unfold _register_node.
  destruct (Dict.get (get_id cls) defs) eqn:Hget; [discriminate|].
  destruct (get_node_def cls) as [d|e]; [|discriminate].
  intros [= <-]. split; [reflexivity|]. exists d. split; [reflexivity|].
  now apply set_absent.
Qed.

(** A registration that succeeds has met pairwise distinct identities and
    holds, in order, the definition of every node type. *)
Lemma register_all_ok nodes : forall defs defs',
  register_all defs nodes = Ok defs' ->
  exists ds,
    Forall2 (fun cls d => get_node_def cls = Ok d) nodes ds /\
    defs' = defs ++ combine (map get_id nodes) ds /\
    (forall cls, In cls nodes -> Dict.get (get_id cls) defs = None) /\
    List.NoDup (map get_id nodes).
Proof.
  induction nodes as [|cls rest IH]; intros defs defs' H; cbn in H.
  - injection H as <-. exists []. cbn. rewrite app_nil_r.
    repeat split; [constructor | tauto | constructor].
  - destruct (_register_node defs cls) as [defs1|e] eqn:Hreg; [|discriminate].
    apply _register_node_ok in Hreg as (Hnone & d & Hd & ->).
    destruct (IH _ _ H) as (ds & Hall & -> & Hfresh & Hnd).
    exists (d :: ds). split; [now constructor|]. split.
    { cbn. now rewrite <- app_assoc. }
    assert (Hrest : forall cls', In cls' rest ->
              Dict.get (get_id cls') defs = None /\ get_id cls' <> get_id cls).
    { intros cls' Hin. specialize (Hfresh cls' Hin).
      rewrite get_app in Hfresh.
      destruct (Dict.get (get_id cls') defs); [discriminate|].
      split; [reflexivity|]. cbn in Hfresh.
      destruct (String.eqb_spec (get_id cls') (get_id cls)); [discriminate|assumption]. }
    split.
    + intros cls' [<-|Hin]; [exact Hnone | now apply Hrest].
    + cbn. constructor; [|exact Hnd].
      intros Hin. apply in_map_iff in Hin as (cls' & Hid & Hin).
      now apply (Hrest cls' Hin).
Qed.

(** When every declaration is valid, a registration can only fail on an
    identity that is already registered. *)
Lemma register_all_raise nodes : forall defs e,
  forallb valid_declaration nodes = true ->
  register_all defs nodes = Raise e ->
  exists pre second post defs1 d1,
    nodes = pre ++ second :: post /\
    register_all defs pre = Ok defs1 /\
    Dict.get (get_id second) defs1 = Some d1 /\
    e = GraphSetupError
          ("Node ID `" +:+ get_id second +:+ "` is not unique " +:+ EM_DASH +:+ " found on "
           +:+ cls_str (node d1) +:+ " and " +:+ cls_str second).
Proof.
  induction nodes as [|cls rest IH]; intros defs e Hvalid H; cbn in H;
    [discriminate|].
  cbn in Hvalid. apply andb_true_iff in Hvalid as [Hv Hvalid].
  destruct (_register_node defs cls) as [defs1|e1] eqn:Hreg.
  - destruct (IH _ _ Hvalid H) as (pre & second & post & defs2 & d1 & -> & Hpre & Hget & ->).
    exists (cls :: pre), second, post, defs2, d1.
    split; [reflexivity|]. split; [|auto]. cbn. now rewrite Hreg.
  - injection H as <-. unfold _register_node in Hreg.
    destruct (Dict.get (get_id cls) defs) as [d1|] eqn:Hget.
    + injection Hreg as <-. exists [], cls, rest, defs, d1. auto.
    + unfold valid_declaration in Hv.
      destruct (get_node_def cls); discriminate.
Qed.

Lemma get_combine nodes ds : 
  Forall2 (fun cls d => get_node_def cls = Ok d) nodes ds ->
  forall k d1, Dict.get k (combine (map get_id nodes) ds) = Some d1 ->
  exists first, In first nodes /\ get_id first = k /\ get_node_def first = Ok d1.
Proof.
  induction 1 as [|cls d nodes ds Hd _ IH]; intros k d1 H; cbn in H; [discriminate|].
  destruct (String.eqb_spec k (get_id cls)) as [->|Hne].
  - injection H as <-. exists cls. split; [now left | auto].
  - destruct (IH _ _ H) as (first & Hin & Hid & Hf).
    exists first. split; [now right | auto].
Qed.

Lemma combine_get nodes ds :
  Forall2 (fun cls d => get_node_def cls = Ok d) nodes ds ->
  List.NoDup (map get_id nodes) ->
  forall cls, In cls nodes ->
  exists d, Dict.get (get_id cls) (combine (map get_id nodes) ds) = Some d /\
            get_node_def cls = Ok d.
Proof.
  induction 1 as [|x d nodes ds Hd _ IH]; intros Hnd cls Hin; [destruct Hin|].
  cbn in Hnd. apply List.NoDup_cons_iff in Hnd as [Hnotin Hnd]. cbn.
  destruct Hin as [<-|Hin].
  - rewrite String.eqb_refl. eauto.
  - destruct (String.eqb_spec (get_id cls) (get_id x)) as [E|_].
    + exfalso. apply Hnotin. rewrite <- E. now apply in_map.
    + now apply IH.
Qed.






(** The invalid declaration of [BadHint] comes after the clash and is
    never looked at. *)
Example duplicate_identity_evaluated :
  Graph_init comma_and [Leaf; Twin1; Twin2] None
    = Raise (GraphSetupError
               ("Node ID `Twin` is not unique " +:+ EM_DASH
                +:+ " found on first.Twin and second.Other")) /\
  Graph_init comma_and [Twin1; Twin2; BadHint] None
    = Raise (GraphSetupError
               ("Node ID `Twin` is not unique " +:+ EM_DASH
                +:+ " found on first.Twin and second.Other")).
Proof. split; reflexivity. Qed.


(** ** The wildcard: validation and rendering *)

(** A graph that was built holds the definition of each of its node types,
    and every successor identity in it is registered. *)
Lemma Graph_init_ok comma_and nodes name g :
  Graph_init comma_and nodes name = Ok g ->
  (forall cls, In cls nodes ->
     exists d, Dict.get (get_id cls) (node_defs g) = Some d /\ get_node_def cls = Ok d) /\
  (forall id d k, In (id, d) (node_defs g) -> In k (Dict.keys (next_node_edges d)) ->
                  Dict.mem k (node_defs g) = true).
Proof.
  unfold Graph_init.
  destruct (register_all [] nodes) as [defs|e] eqn:Hreg; [|discriminate].
  destruct (_validate_edges comma_and defs) as [[]|e] eqn:Hval; [|discriminate].
  intros [= <-]. cbn [node_defs]. split.
  - apply register_all_ok in Hreg as (ds & Hall & -> & _ & Hnd). cbn [app].
    now apply combine_get.
  - intros id d k Hin Hk.
    apply _validate_edges_ok_iff in Hval.
    destruct (Dict.mem k defs) eqn:Hm; [reflexivity|].
    assert (Hbad : In (k, id) (unresolved_references defs))
      by (apply unresolved_references_In; eauto).
    rewrite Hval in Hbad. destruct Hbad.
Qed.

Lemma first_unknown_None g ids :
  first_unknown g ids = None <-> forall i, In i ids -> Dict.mem i (node_defs g) = true.
Proof.
  induction ids as [|i ids IH]; cbn.
  - split; [intros _ i [] | reflexivity].
  - destruct (Dict.mem i (node_defs g)) eqn:Hm.
    + rewrite IH. split; [intros H j [<-|Hj]; auto | intros H j Hj; apply H; now right].
    + split; [discriminate|]. intros H. specialize (H i (or_introl eq_refl)). congruence.
Qed.

Lemma first_unknown_Some g ids i :
  first_unknown g ids = Some i -> In i ids /\ Dict.mem i (node_defs g) = false.
Proof.
  induction ids as [|j ids IH]; cbn; [discriminate|].
  destruct (Dict.mem j (node_defs g)) eqn:Hm.
  - intros H. destruct (IH H). split; [now right | assumption].
  - intros [= <-]. split; [now left | assumption].
Qed.

(** The loop over the highlighted nodes stops at the first identity that
    the graph does not know, and otherwise gives one line for each. *)
Lemma highlight_lines_spec g ids :
  highlight_lines g ids
    = match first_unknown g ids with
      | Some i => Raise (LookupError ("Highlighted node " +:+ DQUOTE +:+ i +:+ DQUOTE
                                      +:+ " is not in the graph."))
      | None => Ok (map (fun i => "class " +:+ i +:+ " highlighted") ids)
      end.
Proof.
  induction ids as [|i ids IH]; cbn; [reflexivity|].
  destruct (Dict.mem i (node_defs g)); [|reflexivity].
  rewrite IH. now destruct (first_unknown g ids).
Qed.

Section Rendering.
Variable indent : string -> string -> string.
Variable graph_nodes : list NodeType.




End Rendering.



(** The diagram of that graph.  As built, the graph has no [nodes] and the
    renderer raises.  With [nodes] set to the two node types, the two edge
    lines of [Hub] carry the node types as the f-string prints them, and
    [Hub --> Leaf], the successor it names, is not drawn. *)
Example wildcard_diagram_evaluated :
  generate_code indent_line (Graph_nodes Hub_graph) Hub_graph (OneIdent (IdentNode Hub))
    NoIdents DEFAULT_HIGHLIGHT_CSS true true
  = Raise (AttributeError "'Graph' object has no attribute 'nodes'") /\
  generate_code indent_line (Some [Hub; Leaf]) Hub_graph (OneIdent (IdentNode Hub)) NoIdents
    DEFAULT_HIGHLIGHT_CSS true true
  = Ok ("stateDiagram-v2" +:+ LF +:+ "  [*] --> Hub" +:+ LF
        +:+ "  Hub --> Hub(BaseNode[None, int])" +:+ LF
        +:+ "  Hub --> Leaf(BaseNode[None, int])" +:+ LF +:+ "  Leaf --> [*]").
Proof. split; reflexivity. Qed.

End GraphFacts.

(* ===================================================================== *)
(** * More on the engine: whole runs, the live state, failures *)
(* ===================================================================== *)
Module EngineMore.
Import Nodes GraphDef State Engine EngineSpec EngineFacts Examples Worlds Spinner.

Section Facts.
Context {P : Program}.
Implicit Types (g : Graph) (w : World) (state : option loc) (n : Node).
Implicit Types (history : list loc) (s : loc).

Lemma next_unregistered g w state n history :
  Dict.mem (node_get_id n) (node_defs g) = false ->
  next g w state n history = (w, history, Raise (not_in_graph n)).
Proof.
  intros H. unfold next. now rewrite (next_begin_unregistered g w state n history H).
Qed.

(** A call of [next] on a registered node leaves one more record, a step
    record, and raises nothing but what the computation raised. *)
Lemma next_registered_events g w state n history w' history' r :
  Dict.mem (node_get_id n) (node_defs g) = true ->
  next g w state n history = (w', history', r) ->
  history' = history ++ [length (events w)] /\
  (exists c d, events w' = events w ++ [NodeEvent c n (now_utc (clock w)) d]) /\
  (forall e, r = Raise e -> exists x, e = NodeRaised x).
Proof.
  intros Hreg H.
  destruct (next_begin_registered g w state n history Hreg) as (c & h & _ & Hb).
  unfold next in H. rewrite Hb in H.
  pose proof (run_node_frame
                {| heap := h;
                   events := events w ++ [NodeEvent c n (now_utc (clock w)) None];
                   clock := S (S (clock w)) |} state n) as [He _].
  destruct (run_node _ state n) as [w2 [x|e]]; cbn [fst events] in He;
    injection H as <- <- <-; (split; [reflexivity|]); split.
  - eexists c, _. now apply next_end_events.
  - discriminate.
  - eauto.
  - intros e' [= <-]. eauto.
Qed.

(** [next] on a registered node and an allocated state object: the world it
    leaves, cell by cell. *)
Lemma next_on_state g w s n history :
  Dict.mem (node_get_id n) (node_defs g) = true ->
  allocated (heap w) s ->
  let v := cell (heap w) s in
  let c := next_free (heap w) in
  exists w' d,
    next g w (Some s) n history
      = (w', history ++ [length (events w)], propagated (snd (node_run n (Some v)))) /\
    events w' = events w ++ [NodeEvent (Some c) n (now_utc (clock w)) d] /\
    next_free (heap w') = S c /\
    (forall l, cell (heap w') l
               = if Nat.eqb l s then default v (fst (node_run n (Some v)))
                 else if Nat.eqb l c then v else cell (heap w) l).
Proof.
  intros Hreg Hs v c. unfold allocated in Hs.
  destruct (next_begin_registered g w (Some s) n history Hreg) as (c' & h & [-> ->] & Hb).
  unfold next. rewrite Hb. unfold run_node. cbn [heap alloc fst cell].
  destruct (Nat.eqb_spec s (next_free (heap w))) as [E|_]; [lia|].
  fold v. destruct (node_run n (Some v)) as [[v'|] [x|e]]; cbn [fst snd propagated default].
  all: eexists _, _; split; [reflexivity|].
  all: split; [unfold next_end, mutate, with_heap; cbn [events heap];
               rewrite ?alter_app_r_alt, ?Nat.sub_diag by lia; reflexivity|].
  all: split; [reflexivity|].
  all: intros l; cbn; fold c;
    destruct (Nat.eqb_spec l s) as [->|Hl]; [|reflexivity];
    destruct (Nat.eqb_spec s c); [lia | reflexivity].
Qed.


Lemma snapshot_set_duration (d : float) (e : HistoryStep) :
  snapshot (set_duration d e) = snapshot e.
Proof. now destruct e. Qed.

(** The records of a world after [next] has run a registered node on the
    live state [s]. *)
Lemma next_registered_snapshots g w s n history :
  Dict.mem (node_get_id n) (node_defs g) = true ->
  snapshots_apart w s ->
  let w' := fst (fst (next g w (Some s) n history)) in
  snapshots_apart w' s /\
  (forall r, (r < length (events w))%nat ->
             snapshot_content w' r = snapshot_content w r) /\
  snapshot_content w' (length (events w)) = Some (Some (cell (heap w) s)).
Proof.
  intros Hreg [Hs Hold]. cbn zeta.
  destruct (next_on_state g w s n history Hreg Hs) as (w' & d & -> & Hev & Hfree & Hcell).
  cbn [fst]. unfold allocated in *.
  assert (Hkeep : forall c, (c < next_free (heap w))%nat -> c <> s ->
                            cell (heap w') c = cell (heap w) c).
  { intros c Hc Hne. rewrite Hcell.
    destruct (Nat.eqb_spec c s); [contradiction|].
    destruct (Nat.eqb_spec c (next_free (heap w))); [lia | reflexivity]. }
  split; [|split].
  - split; [unfold allocated; lia|].
    intros r e c Hr Hc. rewrite Hev in Hr. unfold allocated.
    apply lookup_app_Some in Hr as [Hr'|[_ Hr']].
    + destruct (Hold r e c Hr' Hc) as [Ha Hne]. unfold allocated in Ha.
      split; [lia | exact Hne].
    + destruct (r - length (events w))%nat; [|discriminate].
      injection Hr' as <-. cbn in Hc. injection Hc as <-. split; lia.
  - intros r Hr. unfold snapshot_content. rewrite Hev, lookup_app_l by exact Hr.
    destruct (events w !! r) as [e|] eqn:He; [|reflexivity].
    destruct (snapshot e) as [c|] eqn:Hc; [|reflexivity].
    destruct (Hold r e c He Hc) as [Ha Hne]. now rewrite Hkeep.
  - unfold snapshot_content.
    rewrite Hev, list_lookup_middle by reflexivity. cbn [snapshot].
    rewrite Hcell. destruct (Nat.eqb_spec (next_free (heap w)) s); [lia|].
    now rewrite Nat.eqb_refl.
Qed.

(** What [next] on a registered node returns, and what it leaves in the
    live state. *)
Lemma next_live_result g w s n history :
  Dict.mem (node_get_id n) (node_defs g) = true ->
  allocated (heap w) s ->
  snd (next g w (Some s) n history)
    = propagated (snd (node_run n (Some (cell (heap w) s)))) /\
  cell (heap (fst (fst (next g w (Some s) n history)))) s
    = default (cell (heap w) s) (fst (node_run n (Some (cell (heap w) s)))).
Proof.
  intros Hreg Hs.
  destruct (next_on_state g w s n history Hreg Hs) as (w' & d & -> & _ & _ & Hcell).
  cbn [fst snd]. split; [reflexivity|]. now rewrite Hcell, Nat.eqb_refl.
Qed.

(** Creating a record of any kind: the older snapshots keep their content,
    the new one holds the content of the live state, which stays. *)
Lemma new_record_freezes w s (k : RecordOf) :
  snapshots_apart w s ->
  let w' := fst (new_record w (Some s) k) in
  snd (new_record w (Some s) k) = length (events w) /\
  length (events w') = S (length (events w)) /\
  snapshots_apart w' s /\
  (forall r, (r < length (events w))%nat ->
             snapshot_content w' r = snapshot_content w r) /\
  snapshot_content w' (length (events w)) = Some (Some (cell (heap w) s)) /\
  cell (heap w') s = cell (heap w) s.
Proof.
  intros [Hs Hold]. cbn zeta.
  destruct (new_record_spec w (Some s) k) as (c & h & e & [-> ->] & Hsnap & ->).
  cbn [fst snd]. unfold allocated in *.
  split; [reflexivity|]. split; [cbn; rewrite length_app; cbn; lia|].
  split; [|split; [|split]].
  - split; [unfold allocated; cbn; lia|].
    intros r e' c' Hr Hc. cbn [events] in Hr. unfold allocated. cbn [heap alloc fst next_free].
    apply lookup_app_Some in Hr as [Hr'|[_ Hr']].
    + destruct (Hold r e' c' Hr' Hc) as [Ha Hne]. unfold allocated in Ha.
      split; [lia | exact Hne].
    + destruct (r - length (events w))%nat; [|discriminate].
      injection Hr' as <-. rewrite Hsnap in Hc. injection Hc as <-. split; lia.
  - intros r Hr. unfold snapshot_content. cbn [events heap].
    rewrite lookup_app_l by exact Hr.
    destruct (events w !! r) as [e'|] eqn:He; [|reflexivity].
    destruct (snapshot e') as [c'|] eqn:Hc; [|reflexivity].
    destruct (Hold r e' c' He Hc) as [Ha Hne]. unfold allocated in Ha. cbn.
    destruct (Nat.eqb_spec c' (next_free (heap w))); [lia | reflexivity].
  - unfold snapshot_content. cbn [events heap].
    rewrite list_lookup_middle by reflexivity. rewrite Hsnap. cbn.
    now rewrite Nat.eqb_refl.
  - cbn. destruct (Nat.eqb_spec s (next_free (heap w))); [lia | reflexivity].
Qed.

(** The snapshots along the computations that reach an [End]. *)
Lemma reaches_end_snapshots g s w n history k w1 history1 data :
  reaches_end g (Some s) w n history k w1 history1 data ->
  snapshots_apart w s ->
  snapshots_apart w1 s /\
  length (events w1) = (length (events w) + k)%nat /\
  (forall r, (r < length (events w))%nat ->
             snapshot_content w1 r = snapshot_content w r) /\
  map (snapshot_content w1) (seq (length (events w)) k)
    = map (fun v => Some (Some v)) (live_contents k n (cell (heap w) s)).
Proof.
  induction 1 as [w n history w1 history1 data Hn
                 |w n history w1 history1 n1 k w2 history2 data Hn _ IH];
    intros Hw.
  - destruct (Dict.mem (node_get_id n) (node_defs g)) eqn:Hreg;
      [|rewrite (next_unregistered g w (Some s) n history Hreg) in Hn; discriminate].
    pose proof (next_registered_snapshots g w s n history Hreg Hw) as (Hw1 & Hold & Hnew).
    destruct (next_registered_events _ _ _ _ _ _ _ _ Hreg Hn) as (_ & (c & d & Hev) & _).
    rewrite Hn in Hw1, Hold, Hnew. cbn [fst] in Hw1, Hold, Hnew.
    split; [exact Hw1|]. split; [rewrite Hev, length_app; reflexivity|].
    split; [exact Hold|].
    cbn [seq map live_contents]. rewrite Hnew. f_equal.
    destruct (node_run n (Some (cell (heap w) s))) as [v' [[n'|x|t]|e]]; reflexivity.
  - destruct (Dict.mem (node_get_id n) (node_defs g)) eqn:Hreg;
      [|rewrite (next_unregistered g w (Some s) n history Hreg) in Hn; discriminate].
    pose proof (next_registered_snapshots g w s n history Hreg Hw) as (Hw1 & Hold & Hnew).
    pose proof (next_live_result g w s n history Hreg (proj1 Hw)) as (Hr & Hlive).
    destruct (next_registered_events _ _ _ _ _ _ _ _ Hreg Hn) as (_ & (c & d & Hev) & _).
    rewrite Hn in Hw1, Hold, Hnew, Hr, Hlive. cbn [fst snd] in Hw1, Hold, Hnew, Hr, Hlive.
    destruct (IH Hw1) as (Hw2 & Hlen & Hold2 & Htrace).
    assert (Hl1 : length (events w1) = S (length (events w)))
      by (rewrite Hev, length_app; cbn; lia).
    split; [exact Hw2|]. split; [lia|]. split.
    + intros r Hr'. rewrite Hold2 by lia. now apply Hold.
    + cbn [seq map live_contents]. f_equal.
      * rewrite Hold2 by lia. exact Hnew.
      * rewrite Hl1 in Htrace. rewrite Htrace, Hlive.
        destruct (node_run n (Some (cell (heap w) s))) as [v' [x|e]];
          cbn [propagated] in Hr; [|discriminate].
        injection Hr as <-. reflexivity.
Qed.

Lemma run_loop_returns g state fuel : forall w n history0 w2 data history,
  run_loop fuel g w state n history0 = Some (w2, Ok (data, history)) ->
  exists k w1 history1,
    (k <= fuel)%nat /\
    reaches_end g state w n history0 k w1 history1 data /\
    new_EndEvent w1 state data = (w2, length (events w1)) /\
    history = history1 ++ [length (events w1)].
Proof.
  induction fuel as [|fuel IH]; intros w n h0 w2 data history H;
    cbn [run_loop] in H; [discriminate|].
  destruct (next g w state n h0) as [[w1 history1] [[n1|d|t]|e]] eqn:Hn;
    try discriminate.
  - destruct (IH _ _ _ _ _ _ H) as (k & w1' & h1' & Hk & Hreach & Hend & Hh).
    exists (S k), w1', h1'. split; [lia|].
    split; [eapply reaches_end_later; eauto|]. split; assumption.
  - destruct (new_EndEvent_spec w1 state d) as (c & h & _ & Hnew).
    rewrite Hnew in H. injection H as <- <- <-.
    exists 1%nat, w1, history1. split; [lia|].
    split; [now apply reaches_end_now|]. split; [exact Hnew | reflexivity].
Qed.


(** When [run] of module [Engine] on the live state [s] returns, the
    snapshots of the records of its history hold, in order, the content
    [s] had at the start of each computation, and the snapshot of the end
    record holds the content [s] has at the end. *)
Lemma run_snapshots g w s n fuel w2 data history :
  snapshots_apart w s ->
  run fuel g w (Some s) n = Some (w2, Ok (data, history)) ->
  exists k,
    history = seq (length (events w)) (S k) /\
    map (snapshot_content w2) history
      = map (fun v => Some (Some v))
            (live_contents k n (cell (heap w) s) ++ [cell (heap w2) s]).
Proof.
  intros Hw Hrun.
  unfold run in Hrun.
  apply run_loop_returns in Hrun as (k & w1 & history1 & _ & Hreach & Hend & ->).
  destruct (reaches_end_snapshots _ _ _ _ _ _ _ _ _ Hreach Hw) as (Hw1 & Hlen & _ & Htrace).
  destruct (reaches_end_records _ _ _ _ _ _ _ _ _ Hreach) as (-> & _).
  pose proof (new_record_freezes w1 s (EndOf data) Hw1) as (_ & _ & _ & Hold & Hnew & Hlive).
  cbn [new_record] in Hold, Hnew, Hlive. rewrite Hend in Hold, Hnew, Hlive.
  cbn [fst] in Hold, Hnew, Hlive.
  exists k. cbn [app]. split.
  - rewrite Hlen. now rewrite seq_S.
  - rewrite !map_app. cbn [map]. rewrite Hnew, Hlive. f_equal.
    rewrite <- Htrace. apply map_ext_in. intros r Hr.
    apply in_seq in Hr. apply Hold. lia.
Qed.

(** X8.  With no state, a run allocates and writes no state object, and
    every record it creates has no snapshot. *)
Theorem run_without_state g fuel : forall w n history w' r,
  run_loop fuel g w None n history = Some (w', r) ->
  heap w' = heap w /\
  exists records,
    events w' = events w ++ records /\
    Forall (fun e => snapshot e = None) records.
Proof.
  induction fuel as [|fuel IH]; intros w n history w' r H; cbn [run_loop] in H;
    [discriminate|].
  assert (Hnext : heap (fst (fst (next g w None n history))) = heap w /\
                  exists records,
                    events (fst (fst (next g w None n history))) = events w ++ records /\
                    Forall (fun e => snapshot e = None) records).
  { destruct (Dict.mem (node_get_id n) (node_defs g)) eqn:Hreg.
    - destruct (next_begin_registered g w None n history Hreg) as (c & h & [-> ->] & Hb).
      unfold next. rewrite Hb. cbn [run_node].
      destruct (snd (node_run n None)); cbn [fst heap events next_end].
      + split; [reflexivity|]. eexists [_].
        rewrite alter_app_r_alt, Nat.sub_diag by lia. cbn. split; [reflexivity|].
        repeat constructor.
      + split; [reflexivity|]. eexists [_]. split; [reflexivity|]. repeat constructor.
    - rewrite (next_unregistered g w None n history Hreg). cbn.
      split; [reflexivity|]. exists []. now rewrite app_nil_r. }
  destruct (next g w None n history) as [[w1 history1] [[n1|d|t]|e]];
    cbn [fst] in Hnext; destruct Hnext as (Hh & recs & Hev & Hall).
  - destruct (IH _ _ _ _ _ H) as (Hh' & recs' & Hev' & Hall').
    split; [congruence|]. exists (recs ++ recs').
    split; [rewrite Hev', Hev; now rewrite app_assoc | now apply Forall_app].
  - destruct (new_EndEvent_spec w1 None d) as (c & h & [-> ->] & Hnew).
    rewrite Hnew in H. injection H as <- <-. cbn [heap events].
    split; [exact Hh|]. exists (recs ++ [EndEvent None d (now_utc (clock w1))]).
    split; [rewrite Hev; now rewrite app_assoc|].
    apply Forall_app. split; [exact Hall | repeat constructor].
  - injection H as <- <-. split; [exact Hh|]. eauto.
  - injection H as <- <-. split; [exact Hh|]. eauto.
Qed.

(** Computations that go on returning nodes: after [k] of them the history
    holds [k] finished step records. *)
Lemma steps_on_records g state w n history k w' n' history' :
  steps_on g state w n history k w' n' history' ->
  history' = history ++ seq (length (events w)) k /\
  exists steps,
    length steps = k /\
    Forall (fun e => is_finished_step e = true) steps /\
    events w' = events w ++ steps.
Proof.
  induction 1 as [w n history|w n history w1 history1 n1 k w2 n2 history2 Hn _ IH].
  - cbn. rewrite app_nil_r. split; [reflexivity|]. exists []. rewrite app_nil_r. auto.
  - destruct (next_ok_inv _ _ _ _ _ _ _ _ Hn) as (-> & e & He & Hev).
    destruct IH as (-> & steps & Hlen & Hall & Hev2).
    rewrite Hev in *. rewrite length_app in *. cbn [length] in *.
    split.
    + rewrite <- app_assoc. cbn [seq app]. do 3 f_equal. lia.
    + exists (e :: steps). split; [cbn; lia|]. split; [constructor; auto|].
      rewrite Hev2, <- app_assoc. reflexivity.
Qed.

(** X5.  A run in which no computation ever returns an [End] or raises
    does not terminate: no fuel suffices.  It still records every
    iteration: after [k] of them the history holds [k] finished step
    records.  [Inv] is what holds of the world and the current node at
    every iteration. *)
Theorem run_without_End_goes_on g state (Inv : World -> Node -> Prop) w n :
  Inv w n ->
  (forall w n history, Inv w n ->
     exists w1 history1 n1,
       next g w state n history = (w1, history1, Ok (RetNode n1)) /\ Inv w1 n1) ->
  (forall fuel, run fuel g w state n = None) /\
  (forall k, exists w' n' history' steps,
     steps_on g state w n [] k w' n' history' /\
     history' = seq (length (events w)) k /\
     events w' = events w ++ steps /\
     length steps = k /\
     Forall (fun e => is_finished_step e = true) steps).
Proof.
  intros Hinv Hstep. split.
  - intros fuel. unfold run. generalize (@nil loc) as history. revert w n Hinv.
    induction fuel as [|fuel IH]; intros w n Hinv history; [reflexivity|].
    cbn [run_loop].
    destruct (Hstep w n history Hinv) as (w1 & history1 & n1 & -> & Hinv1).
    now apply IH.
  - intros k.
    assert (H : forall history, exists w' n' history',
                  steps_on g state w n history k w' n' history' /\ Inv w' n').
    { revert w n Hinv. induction k as [|k IH]; intros w n Hinv history.
      - exists w, n, history. split; [constructor | exact Hinv].
      - destruct (Hstep w n history Hinv) as (w1 & history1 & n1 & Hn & Hinv1).
        destruct (IH w1 n1 Hinv1 history1) as (w' & n' & history' & Hs & Hi).
        exists w', n', history'. split; [|exact Hi]. eapply steps_on_S; eauto. }
    destruct (H []) as (w' & n' & history' & Hs & _).
    destruct (steps_on_records _ _ _ _ _ _ _ _ _ Hs) as (Hh & steps & Hlen & Hall & Hev).
    exists w', n', history', steps. cbn [app] in Hh. auto.
Qed.
End Facts.

Section OnCounter.
#[local] Existing Instance Counter.

Lemma Counter_world_apart : snapshots_apart Counter_world 0%nat.
Proof.
  split; [unfold allocated; cbn; lia|].
  intros r e c H. destruct r; discriminate.
Qed.


(** [Boom] writes 100 to the state and raises; the snapshot of its record
    holds 0. *)
Example boom_snapshot_evaluated :
  let w' := fst (fst (next Counter_graph Counter_world (Some 0%nat) Boom_instance [])) in
  cell (heap w') 0%nat = 100 /\ snapshot_content w' 0%nat = Some (Some 0).
Proof. split; reflexivity. Qed.

Example live_contents_evaluated :
  live_contents 3 Increment_instance 0 = [0; 1; 2] /\
  map (snapshot_content Counter_final) [0; 1; 2; 3]%nat
    = [Some (Some 0); Some (Some 1); Some (Some 2); Some (Some 3)].
Proof. vm_compute. split; reflexivity. Qed.

(** The three failures of a run, evaluated. *)
Example run_failures_evaluated :
  option_map snd (run 7 Counter_graph Counter_world (Some 0%nat) Stray_instance)
    = Some (Raise (not_in_graph Stray_instance)) /\
  option_map snd (run 7 Counter_graph Counter_world (Some 0%nat) Junk_instance)
    = Some (Raise (invalid_return "int")) /\
  option_map snd (run 7 Counter_graph Counter_world (Some 0%nat) Boom_instance)
    = Some (Raise (NodeRaised "boom")).
Proof. repeat split. Qed.
End OnCounter.

Section OnAB.
#[local] Existing Instance AB.

(** X8 at the run of [A] and [B]. *)
Lemma run_without_state_witness :
  run_loop 7 AB_graph AB_world None A_instance [] = Some (AB_final, Ok (42, [0; 1; 2]%nat)) /\
  heap AB_final = heap AB_world /\
  exists records,
    events AB_final = events AB_world ++ records /\
    Forall (fun e => snapshot e = None) records.
Proof.
  assert (Hrun : run_loop 7 AB_graph AB_world None A_instance []
                 = Some (AB_final, Ok (42, [0; 1; 2]%nat)))
    by (vm_compute; reflexivity).
  split; [exact Hrun|].
  exact (run_without_state AB_graph 7 AB_world A_instance [] AB_final
           (Ok (42, [0; 1; 2]%nat)) Hrun).
Defined.
End OnAB.

Section OnSpinner.
#[local] Existing Instance Spinning.

(** X5 at the node that returns itself. *)
Lemma run_without_End_witness :
  True /\
  (forall (w : World) (n : Node) history, True ->
     exists w1 history1 n1,
       next Spin_graph w (Some 0%nat) n history = (w1, history1, Ok (RetNode n1)) /\ True) /\
  (forall fuel, run fuel Spin_graph Spin_world (Some 0%nat) tt = None) /\
  (forall k, exists w' n' history' steps,
     steps_on Spin_graph (Some 0%nat) Spin_world tt [] k w' n' history' /\
     history' = seq (length (events Spin_world)) k /\
     events w' = events Spin_world ++ steps /\
     length steps = k /\
     Forall (fun e => is_finished_step e = true) steps).
Proof.
  assert (Hstep : forall (w : World) (n : Node) history, True ->
            exists w1 history1 n1,
              next Spin_graph w (Some 0%nat) n history = (w1, history1, Ok (RetNode n1))
              /\ True).
  { intros w n history _. eexists _, _, _. split; [reflexivity | exact I]. }
  split; [exact I|]. split; [exact Hstep|].
  exact (run_without_End_goes_on Spin_graph (Some 0%nat) (fun _ _ => True) Spin_world tt
           I Hstep).
Defined.

(** Five iterations of it: five records, and the state at 5. *)
Example spin_evaluated :
  run 5 Spin_graph Spin_world (Some 0%nat) tt = None /\
  snd (spin_steps 5 Spin_world []) = [0; 1; 2; 3; 4]%nat /\
  map kind (events (fst (spin_steps 5 Spin_world [])))
    = ["step"; "step"; "step"; "step"; "step"] /\
  cell (heap (fst (spin_steps 5 Spin_world []))) 0%nat = 5.
Proof. vm_compute. repeat split. Qed.
End OnSpinner.

End EngineMore.

(* ===================================================================== *)
(** * The engine for any state class *)
(* ===================================================================== *)
Module CopyFacts.
Import Nodes GraphDef State Engine EngineSpec EngineFacts EngineMore Examples Classes.

Section Facts.
Context {P : Program} {C : Copying.StateClass P}.
Implicit Types (g : Graph) (w : World) (state : option loc) (n : Node).
Implicit Types (history : list loc) (s : loc).

(** ** A class that inherits [deep_copy] *)

Lemma _deep_copy_state_inherited (h : Heap StateV) state :
  Copying.deep_copy_override = None ->
  Copying._deep_copy_state h state
    = match Copying.copy_error h state with
      | Some e => (h, Raise e)
      | None => let '(h', c) := _deep_copy_state h state in (h', Ok c)
      end.
Proof.
  intros Hinh. destruct state as [s|]; [|reflexivity].
  unfold Copying._deep_copy_state, Copying.deep_copy, Copying.AbstractState_deep_copy.
  rewrite Hinh. cbn [Copying.copy_error].
  destruct (Copying.deepcopy_error (cell h s)); reflexivity.
Qed.

(** The constructors of the records: they raise what [copy.deepcopy]
    raises, having read the clock, and otherwise do what those of module
    [State] do. *)
Lemma new_record_inherited w state (k : RecordOf) :
  Copying.deep_copy_override = None ->
  Copying.new_record w state k
    = match Copying.copy_error (heap w) state with
      | Some e => (tick w, Raise e)
      | None => let '(w1, r) := new_record w state k in (w1, Ok r)
      end.
Proof.
  intros Hinh.
  destruct k; cbn [Copying.new_record new_record];
    unfold Copying.new_NodeEvent, Copying.new_InterruptEvent, Copying.new_EndEvent,
           new_NodeEvent, new_InterruptEvent, new_EndEvent;
    rewrite (_deep_copy_state_inherited _ _ Hinh); cbn [heap tick];
    destruct (Copying.copy_error (heap w) state); try reflexivity;
    destruct (_deep_copy_state (heap w) state); reflexivity.
Qed.

Lemma next_unregistered_any g w state n history :
  Dict.mem (node_get_id n) (node_defs g) = false ->
  Copying.next g w state n history
    = (w, history,
       Raise (Copying.GraphRuntimeError
                ("Node `" +:+ node_str n +:+ "` is not in the graph."))).
Proof. intros H. unfold Copying.next. now rewrite H. Qed.

Lemma next_copy_raises g w state n history e :
  Copying.deep_copy_override = None ->
  Dict.mem (node_get_id n) (node_defs g) = true ->
  Copying.copy_error (heap w) state = Some e ->
  Copying.next g w state n history = (tick w, history, Raise (Copying.CopyRaised e)).
Proof.
  intros Hinh Hreg He. unfold Copying.next. rewrite Hreg. cbn [negb].
  change (Copying.new_NodeEvent w state n) with (Copying.new_record w state (StepOf n)).
  now rewrite (new_record_inherited _ _ _ Hinh), He.
Qed.

Lemma next_inherited g w state n history :
  Copying.deep_copy_override = None ->
  Copying.copy_error (heap w) state = None ->
  Copying.next g w state n history = Copying.of_engine_next (next g w state n history).
Proof.
  intros Hinh He. unfold Copying.next, next, next_begin.
  destruct (Dict.mem (node_get_id n) (node_defs g)); cbn [negb]; [|reflexivity].
  change (Copying.new_NodeEvent w state n) with (Copying.new_record w state (StepOf n)).
  rewrite (new_record_inherited _ _ _ Hinh), He. cbn [new_record].
  destruct (new_NodeEvent w state n) as [w1 history_step].
  destruct (run_node (tick w1) state n) as [w2 [r|e]]; reflexivity.
Qed.

(** A run that returns has met no exception of a copy, and is a run of
    the engine of module [Engine]. *)
Lemma run_loop_inherited g state fuel : forall w n history w2 x,
  Copying.deep_copy_override = None ->
  Copying.run_loop fuel g w state n history = Some (w2, Ok x) ->
  run_loop fuel g w state n history = Some (w2, Ok x).
Proof.
  induction fuel as [|fuel IH]; intros w n history w2 x Hinh H; [discriminate|].
  cbn [Copying.run_loop run_loop] in *.
  destruct (Dict.mem (node_get_id n) (node_defs g)) eqn:Hreg;
    [|rewrite (next_unregistered_any _ _ _ _ _ Hreg) in H; discriminate].
  destruct (Copying.copy_error (heap w) state) as [e|] eqn:He;
    [rewrite (next_copy_raises _ _ _ _ _ _ Hinh Hreg He) in H; discriminate|].
  rewrite (next_inherited _ _ _ _ _ Hinh He) in H.
  destruct (next g w state n history) as [[w1 history1] [[n1|d|t]|e]];
    cbn [Copying.of_engine_next Copying.of_engine_result] in H; try discriminate.
  - now apply IH.
  - change (Copying.new_EndEvent w1 state d)
      with (Copying.new_record w1 state (EndOf d)) in H.
    rewrite (new_record_inherited _ _ _ Hinh) in H.
    destruct (Copying.copy_error (heap w1) state); [discriminate|].
    cbn [new_record] in H. destruct (new_EndEvent w1 state d) as [w3 r].
    injection H as <- <-. reflexivity.
Qed.

(** ** Any class *)

(** A call of [next] appends one step record at most, whatever the class
    of the state does when it is copied. *)
Lemma next_records_any g w state n history :
  exists steps,
    events (fst (fst (Copying.next g w state n history))) = events w ++ steps /\
    Forall (fun r => kind r = "step") steps.
Proof.
  unfold Copying.next.
  destruct (Dict.mem (node_get_id n) (node_defs g)); cbn [negb];
    [|exists []; now rewrite app_nil_r].
  unfold Copying.new_NodeEvent.
  destruct (Copying._deep_copy_state (heap (tick w)) state) as [h [c|e]];
    [|exists []; now rewrite app_nil_r].
  cbn [new_event with_heap tick events heap clock].
  set (w1 := {| heap := h; events := _; clock := _ |}).
  pose proof (run_node_frame (tick w1) state n) as [Hev _].
  destruct (run_node (tick w1) state n) as [w2 [r|e]]; cbn [fst] in *.
  - eexists [_]. split.
    + unfold next_end. cbn [events]. rewrite Hev. cbn [tick events w1].
      rewrite alter_app_r_alt, Nat.sub_diag by lia. reflexivity.
    + repeat constructor.
  - eexists [_]. split; [rewrite Hev; reflexivity | repeat constructor].
Qed.

(** What [next] raises: the engine's error for a node that is not
    registered, what the copy of the state raised, or what the computation
    raised. *)
Lemma next_raises_any g w state n history w1 history1 e :
  Copying.next g w state n history = (w1, history1, Raise e) ->
  e = Copying.of_engine (not_in_graph n) \/
  (exists x h s, e = Copying.CopyRaised x /\ state = Some s /\
                 snd (Copying.deep_copy h s) = Raise x) \/
  (exists x, e = Copying.NodeRaised x).
Proof.
  unfold Copying.next.
  destruct (Dict.mem (node_get_id n) (node_defs g)); cbn [negb];
    [|intros [= _ _ <-]; now left].
  unfold Copying.new_NodeEvent, Copying._deep_copy_state.
  destruct state as [s|].
  - destruct (Copying.deep_copy (heap (tick w)) s) as [h [c|x]] eqn:Hc.
    + cbn [new_event with_heap].
      destruct (run_node _ (Some s) n) as [w2 [r|x]]; [discriminate|].
      intros [= _ _ <-]. right. right. eauto.
    + intros [= _ _ <-]. right. left. exists x, (heap (tick w)), s.
      rewrite Hc. auto.
  - cbn [new_event with_heap].
    destruct (run_node _ None n) as [w2 [r|x]]; [discriminate|].
    intros [= _ _ <-]. right. right. eauto.
Qed.

Lemma _deep_copy_state_raises (h h' : Heap StateV) state e :
  Copying._deep_copy_state h state = (h', Raise e) ->
  exists s, state = Some s /\ snd (Copying.deep_copy h s) = Raise e.
Proof.
  unfold Copying._deep_copy_state. destruct state as [s|]; [|discriminate].
  destruct (Copying.deep_copy h s) as [h1 [c|x]] eqn:Hc; [discriminate|].
  intros [= _ <-]. exists s. now rewrite Hc.
Qed.

(** The outcome of [next] on a registered node: what the copy of the state
    raised; otherwise what the computation, run on the live state as the
    copy left it, returned or raised. *)
Lemma next_registered_any g w state n history :
  Dict.mem (node_get_id n) (node_defs g) = true ->
  snd (Copying.next g w state n history)
    = match Copying._deep_copy_state (heap w) state with
      | (h, Raise e) => Raise (Copying.CopyRaised e)
      | (h, Ok c) =>
          match snd (node_run n (option_map (cell h) state)) with
          | Ok returned => Ok returned
          | Raise e => Raise (Copying.NodeRaised e)
          end
      end.
Proof.
  intros Hreg. unfold Copying.next. rewrite Hreg. cbn [negb].
  unfold Copying.new_NodeEvent. change (heap (tick w)) with (heap w).
  destruct (Copying._deep_copy_state (heap w) state) as [h [c|e]]; [|reflexivity].
  cbn [new_event with_heap].
  set (w1 := tick _).
  pose proof (run_node_outcome w1 state n) as Hout.
  change (heap w1) with h in Hout. rewrite <- Hout.
  destruct (run_node w1 state n) as [w2 [r|e]]; reflexivity.
Qed.

(** C8, as the code has it.  [next] raises the engine's runtime error
    exactly when the identity of the current node is not registered, and
    then nothing has changed.  For a registered node the state is copied
    for the step record: when the copy raises, [next] raises that.
    Otherwise the computation of the node is run on the live state, and
    [next] returns what it returned, unchanged, whether that is a node, an
    [End] or any other object; the computation's own exception
    propagates. *)
Theorem next_outcome g w state n history :
  ((exists msg,
      snd (Copying.next g w state n history) = Raise (Copying.GraphRuntimeError msg))
   <-> Dict.mem (node_get_id n) (node_defs g) = false) /\
  (Dict.mem (node_get_id n) (node_defs g) = false ->
   Copying.next g w state n history
     = (w, history,
        Raise (Copying.GraphRuntimeError
                 ("Node `" +:+ node_str n +:+ "` is not in the graph.")))) /\
  (Dict.mem (node_get_id n) (node_defs g) = true ->
   snd (Copying.next g w state n history)
     = match Copying._deep_copy_state (heap w) state with
       | (h, Raise e) => Raise (Copying.CopyRaised e)
       | (h, Ok c) =>
           match snd (node_run n (option_map (cell h) state)) with
           | Ok returned => Ok returned
           | Raise e => Raise (Copying.NodeRaised e)
           end
       end).
Proof.
  split; [|split].
  - split.
    + intros [msg Hmsg].
      destruct (Dict.mem (node_get_id n) (node_defs g)) eqn:Hreg; [|reflexivity].
      rewrite (next_registered_any _ _ _ _ _ Hreg) in Hmsg.
      destruct (Copying._deep_copy_state (heap w) state) as [h [c|e]]; [|discriminate].
      destruct (snd (node_run n (option_map (cell h) state))); discriminate.
    + intros Hreg. rewrite (next_unregistered_any _ _ _ _ _ Hreg). cbn. eauto.
  - apply next_unregistered_any.
  - apply next_registered_any.
Qed.


(** X6.  The class of the live state [s] inherits [deep_copy].  Whatever a
    call of [next] does then, return or raise, the snapshot of every record
    that was there holds the content it held before.  When the node is
    registered and [copy.deepcopy] copies the state, the snapshot of the
    step record that is appended holds the content [s] had when the call
    began; when [copy.deepcopy] raises, no record is appended. *)
Theorem next_freezes_snapshots g w s n history :
  Copying.deep_copy_override = None ->
  snapshots_apart w s ->
  let w' := fst (fst (Copying.next g w (Some s) n history)) in
  snapshots_apart w' s /\
  (forall r, (r < length (events w))%nat ->
             snapshot_content w' r = snapshot_content w r) /\
  (Dict.mem (node_get_id n) (node_defs g) = true ->
   match Copying.deepcopy_error (cell (heap w) s) with
   | None => snapshot_content w' (length (events w)) = Some (Some (cell (heap w) s))
   | Some e => events w' = events w
   end).
Proof.
  intros Hinh Hw. cbn zeta.
  destruct (Dict.mem (node_get_id n) (node_defs g)) eqn:Hreg.
  - destruct (Copying.deepcopy_error (cell (heap w) s)) as [e|] eqn:He.
    + rewrite (next_copy_raises g w (Some s) n history e Hinh Hreg He). cbn [fst].
      split; [exact Hw|]. split; [reflexivity|]. reflexivity.
    + rewrite (next_inherited g w (Some s) n history Hinh He).
      destruct (next_registered_snapshots g w s n history Hreg Hw) as (Hw1 & Hold & Hnew).
      destruct (next g w (Some s) n history) as [[w1 history1] r].
      cbn [Copying.of_engine_next fst] in *.
      split; [exact Hw1|]. split; [exact Hold|]. intros _. exact Hnew.
  - rewrite (next_unregistered_any g w (Some s) n history Hreg). cbn [fst].
    split; [exact Hw|]. split; [reflexivity | discriminate].
Qed.

(** X3.  The history of a run is the sequence of the states, for a state
    class that inherits [deep_copy].  When [run] on the live state [s]
    returns, the snapshots of the records of its history hold, in order,
    the content [s] had at the start of each computation, and the snapshot
    of the end record holds the content [s] has at the end. *)
Theorem run_history_snapshots g w s n fuel w2 data history :
  Copying.deep_copy_override = None ->
  snapshots_apart w s ->
  Copying.run fuel g w (Some s) n = Some (w2, Ok (data, history)) ->
  exists k,
    history = seq (length (events w)) (S k) /\
    map (snapshot_content w2) history
      = map (fun v => Some (Some v))
            (live_contents k n (cell (heap w) s) ++ [cell (heap w2) s]).
Proof.
  intros Hinh Hw Hrun. unfold Copying.run in Hrun.
  apply run_loop_inherited in Hrun; [|exact Hinh].
  exact (run_snapshots g w s n fuel w2 data history Hw Hrun).
Qed.

(** X9.  A run that fails has appended step records only, never an end
    record, and its error is one of four: the current node is not
    registered, a computation returned an object that is neither a node nor
    an [End], a computation raised, or the [deep_copy] of the live state
    raised when a record was created. *)
Theorem run_failure g state fuel : forall w n history w' e,
  Copying.run_loop fuel g w state n history = Some (w', Raise e) ->
  (exists steps,
     events w' = events w ++ steps /\
     Forall (fun r => kind r = "step") steps) /\
  ((exists n', e = Copying.of_engine (not_in_graph n')) \/
   (exists type_name, e = Copying.of_engine (invalid_return type_name)) \/
   (exists x, e = Copying.NodeRaised x) \/
   (exists x h s, e = Copying.CopyRaised x /\ state = Some s /\
                  snd (Copying.deep_copy h s) = Raise x)).
Proof.
  induction fuel as [|fuel IH]; intros w n history w' e H; cbn [Copying.run_loop] in H;
    [discriminate|].
  destruct (next_records_any g w state n history) as (steps & Hev & Hall).
  destruct (Copying.next g w state n history) as [[w1 history1] r] eqn:Hn.
  cbn [fst] in Hev.
  destruct r as [[n1|d|t]|e1].
  - destruct (IH _ _ _ _ _ H) as ((steps' & Hev' & Hall') & He).
    split; [|exact He]. exists (steps ++ steps').
    split; [rewrite Hev', Hev; now rewrite app_assoc | now apply Forall_app].
  - unfold Copying.new_EndEvent in H.
    destruct (Copying._deep_copy_state (heap (tick w1)) state) as [h [c|x]] eqn:Hc;
      [discriminate|].
    injection H as <- <-. cbn [with_heap events tick]. split; [eauto|].
    apply _deep_copy_state_raises in Hc as (s & -> & Hs).
    right. right. right. exists x, (heap (tick w1)), s. auto.
  - injection H as <- <-. split; [eauto|]. right. left. eauto.
  - injection H as <- <-. split; [eauto|].
    destruct (next_raises_any _ _ _ _ _ _ _ _ Hn) as [->|[(x & h & s & -> & -> & Hs)|[x ->]]].
    + left. eauto.
    + right. right. right. exists x, h, s. auto.
    + right. right. left. eauto.
Qed.

End Facts.

(** ** At the counter program *)

Section OnCounter.
#[local] Existing Instance Counter.



(** [Junk] is registered and its computation returns an integer: [next]
    returns it, which is neither a node nor an [End]. *)
Lemma next_returns_any_object :
  Dict.mem (node_get_id Junk_instance) (node_defs Counter_graph) = true /\
  snd (Copying.next (P := Counter) (C := Inherited) Counter_graph Counter_world (Some 0%nat)
         Junk_instance [])
    = Ok (RetOther "int") /\
  snd (next Counter_graph Counter_world (Some 0%nat) Junk_instance [])
    = Ok (RetOther "int").
Proof. repeat split. Qed.

(** The outcomes of [next], evaluated: a node that is not registered; a
    copy that raises, with a state of class [Locked] at content 2; a
    computation that raises; a computation that returns a node. *)
Example next_outcomes_evaluated :
  snd (Copying.next (P := Counter) (C := Inherited) Counter_graph Counter_world (Some 0%nat)
         Stray_instance [])
    = Raise (Copying.GraphRuntimeError "Node `Stray()` is not in the graph.") /\
  snd (Copying.next (P := Counter) (C := Locked) Counter_graph (mutate Counter_world 0%nat 2)
         (Some 0%nat) Increment_instance [])
    = Raise (Copying.CopyRaised (P := Counter) (C := Locked) "cannot pickle '_thread.lock' object") /\
  snd (Copying.next (P := Counter) (C := Inherited) Counter_graph Counter_world (Some 0%nat)
         Boom_instance [])
    = Raise (Copying.NodeRaised (P := Counter) (C := Inherited) "boom") /\
  snd (Copying.next (P := Counter) (C := Inherited) Counter_graph Counter_world (Some 0%nat)
         Increment_instance [])
    = Ok (RetNode Increment_instance).
Proof. repeat split. Qed.

(** X6 at the counter, with a state of class [Inherited]. *)
Lemma next_freezes_snapshots_witness :
  @Copying.deep_copy_override Counter Inherited = None /\
  snapshots_apart Counter_world 0%nat /\
  let w' := fst (fst (Copying.next (P := Counter) (C := Inherited) Counter_graph Counter_world
                        (Some 0%nat) Boom_instance [])) in
  snapshots_apart w' 0%nat /\
  (forall r, (r < length (events Counter_world))%nat ->
             snapshot_content w' r = snapshot_content Counter_world r) /\
  (Dict.mem (node_get_id Boom_instance) (node_defs Counter_graph) = true ->
   match @Copying.deepcopy_error Counter Inherited (cell (heap Counter_world) 0%nat) with
   | None => snapshot_content w' (length (events Counter_world))
             = Some (Some (cell (heap Counter_world) 0%nat))
   | Some e => events w' = events Counter_world
   end).
Proof.
  split; [reflexivity|]. split; [exact Counter_world_apart|].
  exact (next_freezes_snapshots (P := Counter) (C := Inherited) Counter_graph Counter_world 0%nat
           Boom_instance [] eq_refl Counter_world_apart).
Defined.

(** The same call with a state of class [Aliasing]: the snapshot of the
    step record of [Boom] reads what [Boom] wrote to the state. *)
Example aliasing_snapshot_evaluated :
  let w' := fst (fst (Copying.next (P := Counter) (C := Aliasing) Counter_graph Counter_world
                        (Some 0%nat) Boom_instance [])) in
  cell (heap w') 0%nat = 100 /\ snapshot_content w' 0%nat = Some (Some 100).
Proof. split; reflexivity. Qed.

(** X3 at the counter: the snapshots of the run are 0, 1, 2 and, for the
    end record, 3. *)
Lemma run_history_snapshots_witness :
  @Copying.deep_copy_override Counter Inherited = None /\
  snapshots_apart Counter_world 0%nat /\
  Copying.run (P := Counter) (C := Inherited) 7 Counter_graph Counter_world (Some 0%nat)
    Increment_instance
    = Some (Inherited_final, Ok (3, [0; 1; 2; 3]%nat)) /\
  exists k,
    [0; 1; 2; 3]%nat = seq (length (events Counter_world)) (S k) /\
    map (snapshot_content Inherited_final) [0; 1; 2; 3]%nat
      = map (fun v => Some (Some v))
            (live_contents k Increment_instance (cell (heap Counter_world) 0%nat)
             ++ [cell (heap Inherited_final) 0%nat]).
Proof.
  assert (Hrun : Copying.run (P := Counter) (C := Inherited) 7 Counter_graph Counter_world (Some 0%nat)
                   Increment_instance
                 = Some (Inherited_final, Ok (3, [0; 1; 2; 3]%nat)))
    by (vm_compute; reflexivity).
  split; [reflexivity|]. split; [exact Counter_world_apart|]. split; [exact Hrun|].
  exact (run_history_snapshots (P := Counter) (C := Inherited) Counter_graph Counter_world 0%nat
           Increment_instance 7 Inherited_final 3 [0; 1; 2; 3]%nat eq_refl
           Counter_world_apart Hrun).
Defined.

(** X9 at the counter, with a state of class [Locked]: two computations of
    [Increment], then the copy for the third step record raises. *)
Lemma run_failure_witness :
  Copying.run_loop (P := Counter) (C := Locked) 7 Counter_graph Counter_world (Some 0%nat)
    Increment_instance []
    = Some (Locked_failed,
            Raise (Copying.CopyRaised (P := Counter) (C := Locked) "cannot pickle '_thread.lock' object")) /\
  (exists steps,
     events Locked_failed = events Counter_world ++ steps /\
     Forall (fun r => kind r = "step") steps) /\
  ((exists n', Copying.CopyRaised (P := Counter) (C := Locked) "cannot pickle '_thread.lock' object"
               = Copying.of_engine (not_in_graph n')) \/
   (exists type_name, Copying.CopyRaised (P := Counter) (C := Locked) "cannot pickle '_thread.lock' object"
                      = Copying.of_engine (invalid_return type_name)) \/
   (exists x, Copying.CopyRaised (P := Counter) (C := Locked) "cannot pickle '_thread.lock' object"
              = Copying.NodeRaised x) \/
   (exists x h s, Copying.CopyRaised (P := Counter) (C := Locked) "cannot pickle '_thread.lock' object"
                  = Copying.CopyRaised x /\ Some 0%nat = Some s /\
                  snd (Copying.deep_copy (P := Counter) (C := Locked) h s) = Raise x)).
Proof.
  assert (Hrun : Copying.run_loop (P := Counter) (C := Locked) 7 Counter_graph Counter_world (Some 0%nat)
                   Increment_instance []
                 = Some (Locked_failed,
                         Raise (Copying.CopyRaised (P := Counter) (C := Locked) "cannot pickle '_thread.lock' object")))
    by (vm_compute; reflexivity).
  split; [exact Hrun|].
  exact (run_failure (P := Counter) (C := Locked) Counter_graph (Some 0%nat) 7 Counter_world
           Increment_instance [] Locked_failed
           (Copying.CopyRaised (P := Counter) (C := Locked) "cannot pickle '_thread.lock' object") Hrun).
Defined.

(** The records of that run: the two finished steps, and the state at 2. *)
Example locked_run_evaluated :
  map kind (events Locked_failed) = ["step"; "step"] /\
  map is_finished_step (events Locked_failed) = [true; true] /\
  cell (heap Locked_failed) 0%nat = 2.
Proof. vm_compute. repeat split. Qed.

End OnCounter.

End CopyFacts.

(* ===================================================================== *)
(** * More on construction: when it succeeds, how declarations fail *)
(* ===================================================================== *)
Module GraphMore.
Import Nodes GraphDef NodeSpec Examples GraphFacts.

(** The loop of [get_node_def] stops at the first member of the annotation
    that it does not accept. *)
Lemma classify_refused pre r edge post : forall es ee b,
  forallb accepted (map fst pre) = true ->
  accepted r = false ->
  classify (pre ++ (r, edge) :: post) es ee b = Raise (TypeError (refusal r)).
Proof.
  induction pre as [|[r' e'] pre IH]; intros es ee b Hpre Hr; cbn.
  - destruct r; try discriminate; reflexivity.
  - cbn in Hpre. apply andb_true_iff in Hpre as [Hr' Hpre].
    destruct r'; try discriminate; now apply IH.
Qed.

Lemma classify_accepted hints : forall es ee b,
  forallb accepted (map fst hints) = true ->
  exists es' ee' b', classify hints es ee b = Ok (es', ee', b').
Proof.
  induction hints as [|[r e] hints IH]; intros es ee b H; cbn; [eauto|].
  cbn in H. apply andb_true_iff in H as [Hr H].
  destruct r; try discriminate; now apply IH.
Qed.

Lemma classify_end hints : forall es ee b es' ee' b',
  classify hints es ee b = Ok (es', ee', b') ->
  (ee' <> None <-> ee <> None \/ In REnd (map fst hints)).
Proof.
  induction hints as [|[r e] hints IH]; intros es ee b es' ee' b' H; cbn in H.
  - injection H as <- <- <-. cbn. tauto.
  - destruct r as [|target| |shown|]; [| | |discriminate|discriminate];
      rewrite (IH _ _ _ _ _ _ H); cbn [map fst In]; intuition congruence.
Qed.

(** X2.  The outcome of [get_node_def], case by case.  When the return
    type of [run] cannot be read (an annotation that does not resolve, no
    declared return type), the exception of that propagates.  Otherwise the
    members of the declared return type are gone through in order, and the
    first that is neither [BaseNode], a node type nor [End] raises a
    [TypeError]: the one of [get_node_def], which shows the member, when it
    is a class, the one of [issubclass] when it is not.  When every member
    is accepted, the definition belongs to the node type, has its
    identity and its note, an edge for each node type named, an end edge
    exactly when [End] is a member, and the wildcard flag exactly when
    [BaseNode] is. *)
Theorem get_node_def_outcome cls :
  (forall e, hints_error cls = Some e -> get_node_def cls = Raise e) /\
  (hints_error cls = None ->
   (forall pre r edge post,
      return_hint cls = pre ++ (r, edge) :: post ->
      forallb accepted (map fst pre) = true ->
      accepted r = false ->
      get_node_def cls = Raise (TypeError (refusal r))) /\
   (forallb accepted (map fst (return_hint cls)) = true ->
    exists d,
      get_node_def cls = Ok d /\
      node d = cls /\ node_id d = get_id cls /\ note d = cls_note cls /\
      (forall k, In k (Dict.keys (next_node_edges d))
                 <-> In (RNode k) (map fst (return_hint cls))) /\
      (end_edge d <> None <-> In REnd (map fst (return_hint cls))) /\
      (returns_base_node d = true <-> In RBaseNode (map fst (return_hint cls))))).
Proof.
  unfold get_node_def. split; [now intros e ->|]. intros ->. split.
  - intros pre r edge post -> Hpre Hr.
    now rewrite (classify_refused pre r edge post [] None false Hpre Hr).
  - intros Hall.
    destruct (classify_accepted (return_hint cls) [] None false Hall)
      as (es & ee & b & Hc).
    rewrite Hc. eexists. split; [reflexivity|]. cbn.
    destruct (classify_spec _ _ _ _ _ _ _ Hc) as [Hk Hb].
    pose proof (classify_end _ _ _ _ _ _ _ Hc) as He. cbn in Hk.
    repeat split; try reflexivity.
    + intros H. apply Hk in H as [[]|H]. exact H.
    + intros H. apply Hk. now right.
    + intros H. apply He in H as [H|H]; [congruence | exact H].
    + intros H. apply He. now right.
    + intros H. apply Hb in H as [H|H]; [discriminate | exact H].
    + intros H. apply Hb. now right.
Qed.

(** The three ways to refuse a declaration, and a declaration that is
    accepted. *)
Example get_node_def_evaluated :
  get_node_def Unannotated = Raise (KeyError "return") /\
  get_node_def LiteralHint = Raise (TypeError "issubclass() arg 1 must be a class") /\
  get_node_def BadHint = Raise (TypeError "Invalid return type: <class 'int'>") /\
  get_node_def Hub
    = Ok {| node := Hub; node_id := "Hub"; note := None;
            next_node_edges := [("Leaf", no_label)]; end_edge := None;
            returns_base_node := true |}.
Proof. repeat split. Qed.

Lemma keys_combine (nodes : list NodeType) (ds : list NodeDef) :
  length ds = length nodes ->
  Dict.keys (combine (map get_id nodes) ds) = map get_id nodes.
Proof.
  revert ds. induction nodes as [|x nodes IH]; intros [|d ds] H; cbn in *;
    try discriminate; [reflexivity|].
  f_equal. apply IH. lia.
Qed.

Lemma In_combine_def nodes ds :
  Forall2 (fun cls d => get_node_def cls = Ok d) nodes ds ->
  forall id d, In (id, d) (combine (map get_id nodes) ds) ->
  exists cls, In cls nodes /\ get_id cls = id /\ get_node_def cls = Ok d.
Proof.
  induction 1 as [|cls d0 nodes ds Hd _ IH]; intros id d Hin; cbn in Hin; [destruct Hin|].
  destruct Hin as [E|Hin].
  - injection E as <- <-. exists cls. split; [now left | auto].
  - destruct (IH _ _ Hin) as (c & Hc & Hid & Hg). exists c. split; [now right | auto].
Qed.

(** X1.  Construction succeeds exactly when every declaration is valid, no
    two node types derive the same identity, and every successor that a
    node type names is the identity of a node type of the list; cycles and
    self references are accepted.  The graph then maps the identities, in
    the order of the list, to the definitions of the node types. *)
Theorem Graph_init_succeeds_iff comma_and nodes name :
  ((exists g, Graph_init comma_and nodes name = Ok g) <->
   forallb valid_declaration nodes = true /\
   has_duplicates (map get_id nodes) = false /\
   (forall cls k, In cls nodes -> In (RNode k) (map fst (return_hint cls)) ->
                  In k (map get_id nodes))) /\
  (forall g, Graph_init comma_and nodes name = Ok g ->
     GraphDef.name g = name /\
     Dict.keys (node_defs g) = map get_id nodes /\
     Forall2 (fun cls kv => fst kv = get_id cls /\ get_node_def cls = Ok (snd kv))
             nodes (node_defs g)).
Proof.
  assert (Hshape : forall defs, register_all [] nodes = Ok defs ->
            Dict.keys defs = map get_id nodes /\
            Forall2 (fun cls kv => fst kv = get_id cls /\ get_node_def cls = Ok (snd kv))
                    nodes defs /\
            forallb valid_declaration nodes = true /\
            has_duplicates (map get_id nodes) = false).
  { intros defs Hreg.
    apply register_all_ok in Hreg as (ds & Hall & -> & _ & Hnd). cbn [app].
    split; [apply keys_combine; symmetry; eapply Forall2_length; exact Hall|].
    split; [|split; [|now apply has_duplicates_false_iff]].
    - clear Hnd. induction Hall as [|cls d nodes ds Hd _ IH]; cbn; constructor; auto.
    - clear Hnd. induction Hall as [|cls d nodes ds Hd _ IH]; cbn; [reflexivity|].
      unfold valid_declaration at 1. now rewrite Hd. }
  split; [split|].
  - intros [g Hg].
    destruct (Graph_init_ok _ _ _ _ Hg) as [Hdefs Hedges].
    unfold Graph_init in Hg.
    destruct (register_all [] nodes) as [defs|e] eqn:Hreg; [|discriminate].
    destruct (Hshape defs eq_refl) as (Hkeys & _ & Hvalid & Hnodup).
    destruct (_validate_edges comma_and defs) as [[]|e]; [|discriminate].
    injection Hg as <-. cbn [node_defs] in *.
    split; [exact Hvalid|]. split; [exact Hnodup|].
    intros cls k Hin Hk.
    destruct (Hdefs cls Hin) as (d & Hget & Hd).
    apply get_node_def_ok in Hd as (_ & _ & Hc).
    apply classify_spec in Hc as [Hck _].
    rewrite <- Hkeys. apply mem_true_keys.
    apply (Hedges (get_id cls) d k); [now apply get_In|].
    apply Hck. now right.
  - intros (Hvalid & Hnodup & Hsucc). unfold Graph_init.
    destruct (register_all [] nodes) as [defs|e] eqn:Hreg.
    + destruct (Hshape defs eq_refl) as (Hkeys & _ & _ & _).
      assert (Hnone : unresolved_references defs = []).
      { destruct (unresolved_references defs) as [|[k id] rest] eqn:Hrefs; [reflexivity|].
        exfalso.
        assert (Hin : In (k, id) (unresolved_references defs)) by (rewrite Hrefs; now left).
        apply unresolved_references_In in Hin as (d & Hd & Hk & Hm).
        apply register_all_ok in Hreg as (ds & Hall & -> & _ & _). cbn [app] in *.
        destruct (In_combine_def _ _ Hall _ _ Hd) as (cls & Hcls & Hid & Hg).
        apply get_node_def_ok in Hg as (_ & _ & Hc).
        apply classify_spec in Hc as [Hck _].
        assert (Hreg : In k (map get_id nodes)).
        { apply (Hsucc cls k Hcls). apply Hck in Hk as [[]|Hk]. exact Hk. }
        rewrite <- Hkeys in Hreg. apply mem_true_keys in Hreg. congruence. }
      apply (_validate_edges_ok_iff comma_and) in Hnone. rewrite Hnone. eauto.
    + exfalso.
      destruct (register_all_raise _ _ _ Hvalid Hreg)
        as (pre & second & post & defs1 & d1 & -> & Hpre & Hget & _).
      apply register_all_ok in Hpre as (ds & Hall & -> & _ & _). cbn [app] in Hget.
      destruct (get_combine _ _ Hall _ _ Hget) as (first & Hin & Hid & _).
      apply has_duplicates_false_iff in Hnodup.
      rewrite map_app in Hnodup. cbn [map] in Hnodup.
      apply List.NoDup_remove_2 in Hnodup. apply Hnodup.
      apply in_or_app. left. rewrite <- Hid. now apply in_map.
  - intros g Hg. unfold Graph_init in Hg.
    destruct (register_all [] nodes) as [defs|e] eqn:Hreg; [|discriminate].
    destruct (Hshape defs eq_refl) as (Hkeys & Hall & _ & _).
    destruct (_validate_edges comma_and defs) as [[]|e]; [|discriminate].
    injection Hg as <-. cbn. auto.
Qed.

(** A node type that names itself, and two that name each other: the
    graphs are built. *)
Example cycles_are_accepted :
  (exists g, Graph_init comma_and [Spinner.Spin] None = Ok g) /\
  (exists g, Graph_init comma_and
               [node_class "Ping" [RNode "Pong"]; node_class "Pong" [RNode "Ping"]] None
             = Ok g).
Proof. split; eexists; reflexivity. Qed.
End GraphMore.

(* ===================================================================== *)
(** * More on the renderer *)
(* ===================================================================== *)
Module MermaidMore.
Import Nodes GraphDef Mermaid MermaidSpec Examples GraphFacts.

Lemma starts_with_newline_collapse s :
  starts_with_newline (collapse_newlines s) = starts_with_newline s.
Proof.
  induction s as [|c rest IH]; [reflexivity|].
  destruct rest as [|c' rest']; [reflexivity|].
  change (collapse_newlines (String c (String c' rest')))
    with (if (Ascii.eqb c (ascii_of_nat 10) && Ascii.eqb c' (ascii_of_nat 10))%bool
          then collapse_newlines (String c' rest')
          else String c (collapse_newlines (String c' rest'))).
  destruct (Ascii.eqb c (ascii_of_nat 10)) eqn:Hc; cbn [andb].
  - destruct (Ascii.eqb c' (ascii_of_nat 10)) eqn:Hc'.
    + rewrite IH. cbn. now rewrite Hc, Hc'.
    + cbn. now rewrite Hc.
  - cbn. now rewrite Hc.
Qed.

Lemma double_newline_cons c t :
  double_newline (String c t)
    = (Ascii.eqb c (ascii_of_nat 10) && starts_with_newline t || double_newline t)%bool.
Proof.
  destruct t as [|c' t']; cbn; [now rewrite andb_false_r | reflexivity].
Qed.

(** X12.  The substitution applied to a note leaves no two line feeds in a
    row, drops nothing but line feeds, and changes nothing in a text that
    has no two line feeds in a row. *)
Theorem collapse_newlines_spec s :
  double_newline (collapse_newlines s) = false /\
  without_newlines (collapse_newlines s) = without_newlines s /\
  (double_newline s = false -> collapse_newlines s = s).
Proof.
  induction s as [|c rest (IH1 & IH2 & IH3)]; [repeat split|].
  destruct rest as [|c' rest']; [repeat split|].
  change (collapse_newlines (String c (String c' rest')))
    with (if (Ascii.eqb c (ascii_of_nat 10) && Ascii.eqb c' (ascii_of_nat 10))%bool
          then collapse_newlines (String c' rest')
          else String c (collapse_newlines (String c' rest'))).
  rewrite (double_newline_cons c (String c' rest')).
  change (starts_with_newline (String c' rest')) with (Ascii.eqb c' (ascii_of_nat 10)).
  destruct (Ascii.eqb c (ascii_of_nat 10) && Ascii.eqb c' (ascii_of_nat 10))%bool eqn:Hcc.
  - apply andb_true_iff in Hcc as [Hc Hc'].
    split; [exact IH1|]. split; [|discriminate].
    rewrite IH2. cbn [without_newlines]. now rewrite Hc.
  - split; [|split].
    + rewrite double_newline_cons, starts_with_newline_collapse, IH1.
      change (starts_with_newline (String c' rest')) with (Ascii.eqb c' (ascii_of_nat 10)).
      now rewrite Hcc.
    + cbn [without_newlines]. now rewrite IH2.
    + cbn [orb]. intros H. now rewrite IH3.
Qed.

Example collapse_newlines_evaluated :
  collapse_newlines ("a" +:+ LF +:+ LF +:+ LF +:+ "b" +:+ LF +:+ "c" +:+ LF +:+ LF)
    = "a" +:+ LF +:+ "b" +:+ LF +:+ "c" +:+ LF.
Proof. reflexivity. Qed.




(** X13.  Highlighting changes nothing in the body of a diagram: the lines
    with highlighted nodes are the lines without them, followed by an empty
    line, the class definition, and one class line for each highlighted
    identity, in the order given and with repetitions. *)
Theorem highlighting_appends indent nodes g start hl css edge_labels notes lines :
  generate_lines indent nodes g start hl css edge_labels notes = Ok lines ->
  exists body,
    generate_lines indent nodes g start NoIdents css edge_labels notes = Ok body /\
    lines = body ++ (if idents_truthy hl
                     then [EmptyString; "classDef highlighted " +:+ css]
                          ++ map (fun i => "class " +:+ i +:+ " highlighted") (_node_ids hl)
                     else []).
Proof.
  unfold generate_lines. cbn [idents_truthy].
  destruct (first_unknown g _); [discriminate|].
  destruct nodes as [graph_nodes|]; [|discriminate].
  destruct (all_node_lines indent graph_nodes g _ edge_labels notes graph_nodes)
    as [body|e]; [|discriminate].
  destruct (idents_truthy hl).
  - rewrite highlight_lines_spec.
    destruct (first_unknown g (_node_ids hl)); [discriminate|].
    intros [= <-]. eexists. split; [reflexivity|]. reflexivity.
  - intros [= <-]. eexists. split; [reflexivity|]. now rewrite app_nil_r.
Qed.

Lemma get_map_defs (f : NodeDef -> NodeDef) defs k :
  Dict.get k (map (fun kv => (fst kv, f (snd kv))) defs) = option_map f (Dict.get k defs).
Proof.
  induction defs as [|[k' d] defs IH]; cbn; [reflexivity|].
  destruct (String.eqb k k'); [reflexivity | exact IH].
Qed.

Lemma mem_map_defs (f : NodeDef -> NodeDef) g k :
  Dict.mem k (node_defs (map_defs f g)) = Dict.mem k (node_defs g).
Proof.
  unfold Dict.mem, map_defs. cbn [node_defs]. rewrite get_map_defs.
  now destruct (Dict.get k (node_defs g)).
Qed.

Lemma first_unknown_map_defs f g ids :
  first_unknown (map_defs f g) ids = first_unknown g ids.
Proof.
  induction ids as [|i ids IH]; cbn [first_unknown]; [reflexivity|].
  now rewrite mem_map_defs, IH.
Qed.

Lemma highlight_lines_map_defs f g ids :
  highlight_lines (map_defs f g) ids = highlight_lines g ids.
Proof. now rewrite !highlight_lines_spec, first_unknown_map_defs. Qed.

(** The lines are the same for two graphs and two settings of the flags
    that give every node type the same lines. *)
Lemma generate_lines_ext indent nodes g g' el el' notes notes' start hl css :
  (forall k, Dict.mem k (node_defs g') = Dict.mem k (node_defs g)) ->
  (forall graph_nodes ids cls,
     node_lines indent graph_nodes g' ids el' notes' cls
     = node_lines indent graph_nodes g ids el notes cls) ->
  generate_lines indent nodes g' start hl css el' notes'
    = generate_lines indent nodes g start hl css el notes.
Proof.
  intros Hmem Hnode.
  assert (Hfu : forall ids, first_unknown g' ids = first_unknown g ids).
  { induction ids as [|i ids IH]; cbn [first_unknown]; [reflexivity|].
    now rewrite Hmem, IH. }
  assert (Hall : forall graph_nodes ids todo,
            all_node_lines indent graph_nodes g' ids el' notes' todo
            = all_node_lines indent graph_nodes g ids el notes todo).
  { intros graph_nodes ids todo. induction todo as [|c todo IH]; cbn [all_node_lines]; [reflexivity|].
    now rewrite Hnode, IH. }
  unfold generate_lines. rewrite Hfu, !highlight_lines_spec, Hfu.
  destruct nodes as [graph_nodes|]; [|reflexivity]. now rewrite Hall.
Qed.

(** X11.  The two flags do what stripping the graph does.  Without edge
    labels the diagram is the diagram of the graph whose edges carry no
    label; without notes it is the diagram of the graph whose nodes carry
    no note.  Nothing else depends on the flags. *)
Theorem flags_strip indent nodes g start hl css edge_labels notes :
  generate_lines indent nodes g start hl css false notes
    = generate_lines indent nodes (map_defs unlabelled g) start hl css edge_labels notes /\
  generate_lines indent nodes g start hl css edge_labels false
    = generate_lines indent nodes (map_defs unnoted g) start hl css edge_labels notes.
Proof.
  split; symmetry; apply generate_lines_ext; try apply mem_map_defs.
  - intros graph_nodes ids cls. unfold node_lines, map_defs. cbn [node_defs]. rewrite get_map_defs.
    destruct (Dict.get (get_id cls) (node_defs g)) as [d|]; [|reflexivity].
    cbn [option_map].
    assert (Hs : successor_lines graph_nodes edge_labels (get_id cls) (unlabelled d)
                 = successor_lines graph_nodes false (get_id cls) d).
    { unfold successor_lines. cbn [unlabelled returns_base_node next_node_edges].
      destruct (returns_base_node d); [reflexivity|].
      rewrite map_map. apply map_ext. intros [k e]. unfold edge_line. cbn.
      now rewrite andb_false_r. }
    assert (He : end_lines edge_labels (get_id cls) (unlabelled d)
                 = end_lines false (get_id cls) d).
    { unfold end_lines. cbn [unlabelled end_edge].
      destruct (end_edge d); cbn; [|reflexivity]. now rewrite andb_false_r. }
    assert (Hn : note_lines indent notes (get_id cls) (unlabelled d)
                 = note_lines indent notes (get_id cls) d) by reflexivity.
    now rewrite Hs, He, Hn.
  - intros graph_nodes ids cls. unfold node_lines, map_defs. cbn [node_defs]. rewrite get_map_defs.
    destruct (Dict.get (get_id cls) (node_defs g)) as [d|]; [|reflexivity].
    cbn [option_map].
    assert (Hs : successor_lines graph_nodes edge_labels (get_id cls) (unnoted d)
                 = successor_lines graph_nodes edge_labels (get_id cls) d) by reflexivity.
    assert (He : end_lines edge_labels (get_id cls) (unnoted d)
                 = end_lines edge_labels (get_id cls) d) by reflexivity.
    assert (Hn : note_lines indent notes (get_id cls) (unnoted d)
                 = note_lines indent false (get_id cls) d).
    { unfold note_lines. cbn. now rewrite andb_false_r. }
    now rewrite Hs, He, Hn.
Qed.

(** Unknown identities: the start node is reported first; an empty text as
    start node stands for none. *)
Example unknown_identities_evaluated :
  generate_lines indent_line (Some [Hub; Leaf]) Hub_graph (OneIdent (IdentStr "Nowhere"))
    (OneIdent (IdentStr "Nobody")) DEFAULT_HIGHLIGHT_CSS true true
    = Raise (LookupError ("Start node " +:+ DQUOTE +:+ "Nowhere" +:+ DQUOTE
                          +:+ " is not in the graph.")) /\
  generate_lines indent_line (Some [Hub; Leaf]) Hub_graph (OneIdent (IdentStr EmptyString))
    (OneIdent (IdentStr "Nobody")) DEFAULT_HIGHLIGHT_CSS true true
    = Raise (LookupError ("Highlighted node " +:+ DQUOTE +:+ "Nobody" +:+ DQUOTE
                          +:+ " is not in the graph.")).
Proof. split; reflexivity. Qed.

(** X13 at [Hub_graph], with [Leaf] highlighted twice. *)
Lemma highlighting_appends_witness :
  generate_lines indent_line (Some [Hub; Leaf]) Hub_graph NoIdents
    (ManyIdents [IdentStr "Leaf"; IdentNode Leaf]) "fill:red" true true
    = Ok ["stateDiagram-v2"; "  Hub --> Hub(BaseNode[None, int])";
          "  Hub --> Leaf(BaseNode[None, int])"; "  Leaf --> [*]"; EmptyString;
          "classDef highlighted fill:red"; "class Leaf highlighted";
          "class Leaf highlighted"] /\
  exists body,
    generate_lines indent_line (Some [Hub; Leaf]) Hub_graph NoIdents NoIdents "fill:red" true true
      = Ok body /\
    ["stateDiagram-v2"; "  Hub --> Hub(BaseNode[None, int])";
     "  Hub --> Leaf(BaseNode[None, int])"; "  Leaf --> [*]"; EmptyString;
     "classDef highlighted fill:red"; "class Leaf highlighted"; "class Leaf highlighted"]
    = body ++ (if idents_truthy (ManyIdents [IdentStr "Leaf"; IdentNode Leaf])
               then [EmptyString; "classDef highlighted " +:+ "fill:red"]
                    ++ map (fun i => "class " +:+ i +:+ " highlighted")
                           (_node_ids (ManyIdents [IdentStr "Leaf"; IdentNode Leaf]))
               else []).
Proof.
  split; [reflexivity|].
  apply (highlighting_appends indent_line (Some [Hub; Leaf]) Hub_graph NoIdents
           (ManyIdents [IdentStr "Leaf"; IdentNode Leaf]) "fill:red" true true).
  reflexivity.
Defined.

(** A graph with a labelled edge and a note of two paragraphs, rendered
    with and without labels and notes. *)
Example flags_evaluated :
  let g :=
    {| name := None;
       node_defs :=
         [("Ask", {| node := node_class "Ask" [RNode "Ask"; REnd]; node_id := "Ask";
                     note := Some ("First." +:+ LF +:+ LF +:+ "Second.");
                     next_node_edges := [("Ask", {| label := Some "again" |})];
                     end_edge := Some {| label := Some "done" |};
                     returns_base_node := false |})] |} in
  generate_lines indent_line (Some [node_class "Ask" [RNode "Ask"; REnd]]) g NoIdents NoIdents
    DEFAULT_HIGHLIGHT_CSS true true
    = Ok ["stateDiagram-v2"; "  Ask --> Ask: again"; "  Ask --> [*]: done";
          "  note right of Ask"; "    First." +:+ LF +:+ "Second."; "  end note"] /\
  generate_lines indent_line (Some [node_class "Ask" [RNode "Ask"; REnd]]) g NoIdents NoIdents
    DEFAULT_HIGHLIGHT_CSS false false
    = Ok ["stateDiagram-v2"; "  Ask --> Ask"; "  Ask --> [*]"].
Proof. split; reflexivity. Qed.
End MermaidMore.

(* ===================================================================== *)
(** * Requesting and saving an image *)
(* ===================================================================== *)
Module ImageFacts.
Import Nodes GraphDef Mermaid MermaidImage Examples.

Section Facts.
Context {float : Type}.
Variables (float_truthy : float -> bool) (str_float : float -> string).
Variables (b64encode : string -> string) (indent : string -> string -> string).
Variables (nodes : option (list NodeType)).
Variable httpx_get : string -> list (string * ParamValue) -> Response.
Variables (path_suffix lower : string -> string).
Implicit Types (kwargs : MermaidConfig float).

Lemma get_set {V} (k k' : string) (v : V) d :
  Dict.get k (Dict.set k' v d) = if String.eqb k k' then Some v else Dict.get k d.
Proof.
  induction d as [|[k0 v0] d IH]; cbn; [reflexivity|].
  destruct (String.eqb_spec k' k0) as [->|H0]; cbn.
  - now destruct (String.eqb k k0).
  - destruct (String.eqb_spec k k0) as [->|H1]; [|exact IH].
    destruct (String.eqb_spec k0 k'); [congruence | reflexivity].
Qed.

Lemma get_set_if (c : bool) (k k' : string) (v : ParamValue) params :
  Dict.get k (set_if c k' v params)
    = if (c && String.eqb k k')%bool then Some v else Dict.get k params.
Proof. unfold set_if. destruct c; [apply get_set | reflexivity]. Qed.

Ltac param_table :=
  unfold request_of;
  repeat match goal with
         | |- context [is_type ?f ?kw ?t] => destruct (is_type f kw t)
         end;
  cbn [fst snd]; rewrite ?get_set_if; cbn [String.eqb Ascii.eqb Bool.eqb andb negb];
  rewrite ?andb_false_r, ?andb_true_r; cbn [Dict.get];
  repeat match goal with
         | |- context [truthy ?x] => destruct x as [?|]; cbn [truthy default option_map]
         | |- context [truthy_bool ?x] => destruct x as [[|]|]; cbn [truthy_bool default]
         | |- context [truthy_int ?x] => destruct x as [?|]; cbn [truthy_int default option_map]
         | |- context [truthy_float ?f ?t ?x] =>
             destruct x as [?|]; cbn [truthy_float option_map]
         end;
  repeat match goal with
         | |- context [if ?c then _ else _] => destruct c
         end;
  try reflexivity.

(** The endpoint of the request, and its image type parameter. *)
Lemma request_of_endpoint_and_type code_base64 kwargs :
  let pdf := is_type float kwargs "pdf" in
  let svg := is_type float kwargs "svg" in
  fst (request_of float float_truthy str_float code_base64 kwargs)
    = "https://mermaid.ink/" +:+ (if pdf then "pdf" else if svg then "svg" else "img")
      +:+ "/" +:+ code_base64 /\
  Dict.get "type" (snd (request_of float float_truthy str_float code_base64 kwargs))
    = (if (negb pdf && negb svg && truthy (image_type float kwargs))%bool
       then option_map PStr (image_type float kwargs) else None).
Proof.
  cbn zeta.
  split; [unfold request_of; destruct (is_type float kwargs "pdf");
          [|destruct (is_type float kwargs "svg")]; reflexivity|].
  param_table.
Qed.

(** X14.  The request that [request_image] builds.  The endpoint is [pdf]
    or [svg] for these two image types and [img] otherwise.  The options of
    a PDF are sent only to the [pdf] endpoint; the image type is sent only
    to the [img] endpoint; the colour, the theme, the width, the height and
    the scale are sent to every endpoint.  An option that is absent or
    false in Python's sense (an empty text, a zero) is not sent, and no
    other parameter is ever sent. *)
Theorem request_parameters code_base64 kwargs :
  let url := fst (request_of float float_truthy str_float code_base64 kwargs) in
  let params := snd (request_of float float_truthy str_float code_base64 kwargs) in
  let pdf := is_type float kwargs "pdf" in
  let svg := is_type float kwargs "svg" in
  url = "https://mermaid.ink/" +:+ (if pdf then "pdf" else if svg then "svg" else "img")
        +:+ "/" +:+ code_base64 /\
  Dict.get "fit" params
    = (if (pdf && truthy_bool (pdf_fit float kwargs))%bool then Some (PBool true) else None) /\
  Dict.get "landscape" params
    = (if (pdf && truthy_bool (pdf_landscape float kwargs))%bool
       then Some (PBool true) else None) /\
  Dict.get "paper" params
    = (if (pdf && truthy (pdf_paper float kwargs))%bool
       then option_map PStr (pdf_paper float kwargs) else None) /\
  Dict.get "type" params
    = (if (negb pdf && negb svg && truthy (image_type float kwargs))%bool
       then option_map PStr (image_type float kwargs) else None) /\
  Dict.get "bgColor" params
    = (if truthy (background_color float kwargs)
       then option_map PStr (background_color float kwargs) else None) /\
  Dict.get "theme" params
    = (if truthy (theme float kwargs) then option_map PStr (theme float kwargs) else None) /\
  Dict.get "width" params
    = (if truthy_int (width float kwargs)
       then option_map (fun z => PStr (str_int z)) (width float kwargs) else None) /\
  Dict.get "height" params
    = (if truthy_int (height float kwargs)
       then option_map (fun z => PStr (str_int z)) (height float kwargs) else None) /\
  Dict.get "scale" params
    = (if truthy_float float float_truthy (scale float kwargs)
       then option_map (fun x => PStr (str_float x)) (scale float kwargs) else None) /\
  (forall k, ~ In k param_keys -> Dict.get k params = None).
Proof.
  cbn zeta.
  split; [unfold request_of; destruct (is_type float kwargs "pdf");
          [|destruct (is_type float kwargs "svg")]; reflexivity|].
  do 9 (split; [param_table|]).
  intros k Hk.
  assert (Hne : forall k', In k' param_keys -> String.eqb k k' = false).
  { intros k' Hin. destruct (String.eqb_spec k k') as [->|]; [contradiction | reflexivity]. }
  unfold request_of.
  destruct (is_type float kwargs "pdf"); [|destruct (is_type float kwargs "svg")];
    cbn [fst snd]; rewrite ?get_set_if;
    rewrite ?Hne by (cbn; tauto); rewrite ?andb_false_r; reflexivity.
Qed.

Lemma save_kwargs_render path kwargs :
  let kwargs' := save_kwargs float path_suffix lower path kwargs in
  start_node float kwargs' = start_node float kwargs /\
  highlighted_nodes float kwargs' = highlighted_nodes float kwargs /\
  highlight_css float kwargs' = highlight_css float kwargs /\
  edge_labels float kwargs' = edge_labels float kwargs /\
  notes float kwargs' = notes float kwargs.
Proof.
  unfold save_kwargs. destruct (image_type float kwargs); [repeat split|].
  destruct (known_ext _); repeat split.
Qed.

(** X15.  What [save_image] does, by the outcome of its steps.  When the
    diagram cannot be rendered, nothing is requested and nothing is
    written.  Otherwise one request is sent; when the service answers with
    a failure, nothing is written and the error carries the status and the
    body of the answer; when it answers with success, the bytes of the
    answer are written to the path, and to no other. *)
Theorem save_image_effects path g kwargs :
  let saved := save_image float float_truthy str_float b64encode indent nodes httpx_get
                 path_suffix lower path g kwargs in
  match generate_code indent nodes g (start_node float kwargs)
          (highlighted_nodes float kwargs)
          (default DEFAULT_HIGHLIGHT_CSS (highlight_css float kwargs))
          (default true (edge_labels float kwargs))
          (default true (notes float kwargs)) with
  | Raise e => saved = ([], [], Raise (RenderError e))
  | Ok code =>
      let request := request_of float float_truthy str_float (b64encode code)
                       (save_kwargs float path_suffix lower path kwargs) in
      let response := httpx_get (fst request) (snd request) in
      if is_success response
      then saved = ([request], [(path, content response)], Ok tt)
      else saved = ([request], [],
                    Raise (ValueError (str_int (status_code response)
                                       +:+ " error generating image:" +:+ LF
                                       +:+ text response)))
  end.
Proof.
  cbn zeta. unfold save_image, request_image.
  destruct (save_kwargs_render path kwargs) as (-> & -> & -> & -> & ->).
  destruct (generate_code _ _ _ _ _ _ _ _) as [code|e]; [|reflexivity].
  destruct (request_of _ _ _ _ _) as [url params]. cbn [fst snd].
  destruct (is_success (httpx_get url params)); reflexivity.
Qed.

(** X16.  The image type that [save_image] asks for.  A type given in the
    arguments is used whatever the path.  With none given, the extension
    of the path decides, in lower case: [pdf] and [svg] go to their
    endpoints, [png] and [webp] go to [img] with the type as a parameter,
    and any other extension goes to [img] with no type. *)
Theorem save_image_type code_base64 path kwargs :
  let ext := drop_first (lower (path_suffix path)) in
  let request := request_of float float_truthy str_float code_base64
                   (save_kwargs float path_suffix lower path kwargs) in
  (forall t, image_type float kwargs = Some t ->
             request = request_of float float_truthy str_float code_base64 kwargs) /\
  (image_type float kwargs = None ->
   fst request
     = "https://mermaid.ink/"
       +:+ (if String.eqb ext "pdf" then "pdf"
            else if String.eqb ext "svg" then "svg" else "img")
       +:+ "/" +:+ code_base64 /\
   Dict.get "type" (snd request)
     = (if (String.eqb ext "png" || String.eqb ext "webp")%bool
        then Some (PStr ext) else None)).
Proof.
  cbn zeta. split.
  - intros t Ht. unfold save_kwargs. now rewrite Ht.
  - intros Hnone.
    destruct (request_of_endpoint_and_type code_base64
                (save_kwargs float path_suffix lower path kwargs))
      as (Hurl & Htype).
    cbn zeta in Hurl, Htype. rewrite Hurl, Htype. clear Hurl Htype.
    unfold save_kwargs. rewrite Hnone. unfold known_ext. cbn [existsb].
    set (ext := drop_first (lower (path_suffix path))).
    destruct (String.eqb_spec ext "png") as [->|Hpng]; [split; reflexivity|].
    destruct (String.eqb_spec ext "webp") as [->|Hwebp]; [split; reflexivity|].
    destruct (String.eqb_spec ext "svg") as [->|Hsvg]; [split; reflexivity|].
    destruct (String.eqb_spec ext "pdf") as [->|Hpdf]; [split; reflexivity|].
    cbn [orb]. unfold is_type. rewrite Hnone. split; reflexivity.
Qed.
End Facts.

(** Saving the diagram of [Hub_graph] with its two node types as [nodes]:
    to a [.SVG] path with a service that answers; to a [.jpg] path with a
    service that fails; and with a start node that the graph does not
    know. *)
Example save_image_evaluated :
  let ok := {| is_success := true; status_code := 200; text := "ok"; content := "<svg/>" |} in
  let down := {| is_success := false; status_code := 503; text := "busy"; content := "x" |} in
  let lower_svg := fun s => if String.eqb s ".SVG" then ".svg" else s in
  let save r path cfg :=
    save_image Z (fun z => negb (z =? 0)) str_int (fun code => code) indent_line
      (Some [Hub; Leaf]) (answering r) simple_suffix lower_svg path Hub_graph cfg in
  save ok "out/diagram.SVG" no_config
    = ([("https://mermaid.ink/svg/stateDiagram-v2" +:+ LF
          +:+ "  Hub --> Hub(BaseNode[None, int])" +:+ LF
          +:+ "  Hub --> Leaf(BaseNode[None, int])" +:+ LF +:+ "  Leaf --> [*]", [])],
       [("out/diagram.SVG", "<svg/>")], Ok tt) /\
  snd (save down "diagram.jpg" no_config)
    = Raise (ValueError ("503 error generating image:" +:+ LF +:+ "busy")) /\
  snd (fst (save down "diagram.jpg" no_config)) = [] /\
  save ok "diagram.png"
       {| start_node := OneIdent (IdentStr "Nowhere"); highlighted_nodes := NoIdents;
          highlight_css := None; edge_labels := None; notes := None; image_type := None;
          pdf_fit := None; pdf_landscape := None; pdf_paper := None;
          background_color := None; theme := None; width := None; height := None;
          scale := None |}
    = ([], [], Raise (RenderError (LookupError ("Start node " +:+ DQUOTE +:+ "Nowhere"
                                                 +:+ DQUOTE +:+ " is not in the graph.")))).
Proof. cbn zeta. repeat split. Qed.

(** [Hub_graph] as the constructor leaves it, without [nodes]: nothing is
    requested and nothing is written. *)
Example save_built_graph_evaluated :
  save_image Z (fun z => negb (z =? 0)) str_int (fun code => code) indent_line
    (Graph_nodes Hub_graph)
    (answering {| is_success := true; status_code := 200; text := "ok";
                       content := "<svg/>" |})
    simple_suffix (fun s => s) "diagram.svg" Hub_graph no_config
  = ([], [], Raise (RenderError (AttributeError "'Graph' object has no attribute 'nodes'"))).
Proof. reflexivity. Qed.

(** A width of zero, an empty theme and a scale of zero are not sent; a
    PDF takes its options and no type. *)
Example request_parameters_evaluated :
  snd (request_of Z (fun z => negb (z =? 0)) str_int "CODE"
         {| start_node := NoIdents; highlighted_nodes := NoIdents; highlight_css := None;
            edge_labels := None; notes := None; image_type := Some "pdf";
            pdf_fit := Some true; pdf_landscape := Some false; pdf_paper := Some "a4";
            background_color := Some "!white"; theme := Some EmptyString;
            width := Some 0; height := Some 600; scale := Some 0 |})
    = [("fit", PBool true); ("paper", PStr "a4"); ("bgColor", PStr "!white");
       ("height", PStr "600")].
Proof. reflexivity. Qed.

End ImageFacts.

(* ===================================================================== *)
(** * More on retrievers: the budget of retries, the arguments of a call *)
(* ===================================================================== *)
Module RetrieverMore.
Import Retrievers RetrieverSpec Examples RetrieverFacts.

Section Facts.
Context {R : Runtime}.
Implicit Types (self : Retriever) (ctx : AgentContext).
Implicit Types (m : FunctionCall) (ms : list FunctionCall).

(** A sequence of calls that all fail validation. *)
Lemma run_all_failing ms : forall self ctx,
  (forall m, In m ms -> validates self m = false) ->
  _current_retry (fst (run_all self ctx ms))
    = _current_retry self + Z.of_nat (length ms) /\
  forall i r, snd (run_all self ctx ms) !! i = Some r ->
    exists m e,
      ms !! i = Some m /\ validator self (arguments m) = Raise e /\
      r = if max_retries self <? _current_retry self + Z.of_nat i + 1
          then Raise (ValidationError e)
          else Ok (FunctionValidationError (function_id m) (function_name m) e).
Proof.
  induction ms as [|m ms IH]; intros self ctx Hfail.
  - cbn. split; [lia|]. intros i r H. destruct i; discriminate.
  - assert (Hm : validates self m = false) by (apply Hfail; now left).
    unfold validates in Hm.
    destruct (validator self (arguments m)) as [a|e] eqn:Hv; [discriminate|].
    assert (Hrun : run self ctx m
                   = (set_current_retry self (_current_retry self + 1),
                      if max_retries self <? _current_retry self + 1
                      then Raise (ValidationError e)
                      else Ok (FunctionValidationError (function_id m) (function_name m) e))).
    { unfold run. rewrite Hv. cbn. now destruct (_ <? _). }
    specialize (IH (set_current_retry self (_current_retry self + 1)) ctx).
    destruct IH as [IHc IHr]; [intros m' Hin; apply Hfail; now right|].
    cbn [run_all]. rewrite Hrun.
    destruct (run_all (set_current_retry self (_current_retry self + 1)) ctx ms)
      as [self2 rs]. cbn [fst snd] in *.
    split; [rewrite IHc; cbn; lia|].
    intros [|i] r Hi; cbn in Hi.
    + injection Hi as <-. exists m, e. split; [reflexivity|]. split; [exact Hv|].
      cbn. now rewrite Z.add_0_r.
    + destruct (IHr i r Hi) as (m' & e' & Hl & Hv' & ->).
      exists m', e'. split; [exact Hl|]. split; [exact Hv'|]. cbn.
      replace (_current_retry self + 1 + Z.of_nat i + 1)
        with (_current_retry self + Z.of_nat (S i) + 1) by lia.
      reflexivity.
Qed.

(** X17.  After [reset], a retriever tolerates exactly [max_retries]
    validation failures in a row: the first [max_retries] failing calls are
    answered with the validation errors and the identifiers of the call,
    every later one raises the validation error. *)
Theorem reset_restores_budget self ctx ms :
  (forall m, In m ms -> validates self m = false) ->
  forall i r, snd (run_all (reset self) ctx ms) !! i = Some r ->
    exists m e,
      ms !! i = Some m /\ validator self (arguments m) = Raise e /\
      r = if Z.of_nat i <? max_retries self
          then Ok (FunctionValidationError (function_id m) (function_name m) e)
          else Raise (ValidationError e).
Proof.
  intros Hfail i r Hi.
  destruct (run_all_failing ms (reset self) ctx Hfail) as [_ Hr].
  destruct (Hr i r Hi) as (m & e & Hm & Hv & ->).
  exists m, e. split; [exact Hm|]. split; [exact Hv|]. cbn.
  destruct (Z.ltb_spec (max_retries self) (0 + Z.of_nat i + 1));
    destruct (Z.ltb_spec (Z.of_nat i) (max_retries self)); try lia; reflexivity.
Qed.

(** The loop over the positional fields adds one argument for each field,
    or stops at a field that the dictionary does not hold. *)
Lemma pop_positional_spec fields : forall args d,
  match pop_positional fields args d with
  | Ok (args', d') =>
      exists vs, args' = args ++ map Positional vs /\ length vs = length fields
  | Raise e => exists k, e = KeyError k /\ In k fields
  end.
Proof.
  induction fields as [|f fields IH]; intros args d; cbn.
  - exists []. cbn. now rewrite app_nil_r.
  - destruct (pop f d) as [[v d']|]; [|exists f; split; [reflexivity | now left]].
    specialize (IH (args ++ [Positional v]) d').
    destruct (pop_positional fields (args ++ [Positional v]) d') as [[args' d'']|e].
    + destruct IH as (vs & -> & Hlen). exists (v :: vs). cbn.
      split; [now rewrite <- app_assoc | now rewrite Hlen].
    + destruct IH as (k & -> & Hin). exists k. split; [reflexivity | now right].
Qed.

Lemma pop_positional_popped fields : forall args d args' d',
  pop_positional fields args d = Ok (args', d') <->
  exists vs, popped d fields vs d' /\ args' = args ++ map Positional vs.
Proof.
  induction fields as [|f fields IH]; intros args d args' d'; cbn [pop_positional].
  - split.
    + intros [= <- <-]. exists []. split; [constructor|]. cbn. now rewrite app_nil_r.
    + intros (vs & Hp & ->). inversion Hp; subst. cbn. now rewrite app_nil_r.
  - destruct (pop f d) as [[v d1]|] eqn:Hpop.
    + rewrite IH. split.
      * intros (vs & Hp & ->). exists (v :: vs). split; [econstructor; eauto|].
        cbn. now rewrite <- app_assoc.
      * intros (vs & Hp & ->). inversion Hp; subst.
        match goal with H : pop f d = Some _ |- _ => rewrite Hpop in H; injection H as <- <- end.
        eexists. split; [eassumption|]. cbn. now rewrite <- app_assoc.
    + split; [discriminate|]. intros (vs & Hp & _). inversion Hp; subst. congruence.
Qed.

Lemma pop_positional_raise fields : forall args d e,
  pop_positional fields args d = Raise e ->
  exists pre k post vs d1,
    fields = pre ++ k :: post /\ popped d pre vs d1 /\ pop k d1 = None /\
    e = KeyError k.
Proof.
  induction fields as [|f fields IH]; intros args d e; cbn [pop_positional];
    [discriminate|].
  destruct (pop f d) as [[v d1]|] eqn:Hpop.
  - intros H. destruct (IH _ _ _ H) as (pre & k & post & vs & d2 & -> & Hp & Hk & ->).
    exists (f :: pre), k, post, (v :: vs), d2.
    split; [reflexivity|]. split; [econstructor; eauto | auto].
  - intros [= <-]. exists [], f, fields, [], d.
    split; [reflexivity|]. split; [constructor | auto].
Qed.

(** X18.  The arguments that [_call_args] lays out.  It returns exactly
    when every positional field can be popped from the dictionary, one
    after the other in their order, and, if the retriever has a variable
    positional field, that field can be popped next and its value can be
    iterated.  The positional arguments are then the call information,
    when the function takes it; the values popped for the positional
    fields, in that order; and the items of the value popped for the
    variable positional field.  The keyword arguments are what is left of
    the dictionary.  It raises [KeyError] for the first field that cannot
    be popped, and [TypeError] when the value of the variable positional
    field cannot be iterated. *)
Theorem call_args_layout self ctx args_dict :
  (forall args kwargs,
     _call_args self ctx args_dict = Ok (args, kwargs) <->
     exists vs d1,
       popped (wrapped self args_dict) (positional_fields self) vs d1 /\
       match var_field self with
       | None => args = info_args self ctx ++ map Positional vs /\ kwargs = d1
       | Some k =>
           exists v extra,
             pop k d1 = Some (v, kwargs) /\ items v = Some extra /\
             args = info_args self ctx ++ map Positional vs ++ map Positional extra
       end) /\
  (forall e,
     _call_args self ctx args_dict = Raise e ->
     (exists pre k post vs d1,
        positional_fields self = pre ++ k :: post /\
        popped (wrapped self args_dict) pre vs d1 /\
        pop k d1 = None /\ e = KeyError k) \/
     (exists vs d1 k,
        popped (wrapped self args_dict) (positional_fields self) vs d1 /\
        var_field self = Some k /\
        (pop k d1 = None /\ e = KeyError k \/
         exists v d2, pop k d1 = Some (v, d2) /\ items v = None /\ e = TypeError))).
Proof.
  assert (Hd : (if truthy (single_arg_name self)
                then single (default EmptyString (single_arg_name self)) args_dict
                else args_dict) = wrapped self args_dict).
  { unfold wrapped, truthy. destruct (single_arg_name self) as [n|]; [|reflexivity].
    cbn. now destruct (String.eqb n EmptyString). }
  assert (Hv : truthy (var_positional_field self)
               = match var_field self with Some _ => true | None => false end /\
               forall k, var_field self = Some k ->
                         default EmptyString (var_positional_field self) = k).
  { unfold var_field, truthy. destruct (var_positional_field self) as [k|]; cbn.
    - destruct (String.eqb k EmptyString); cbn; split; congruence.
    - split; [reflexivity | discriminate]. }
  destruct Hv as [Hv Hk].
  unfold _call_args. rewrite Hd, Hv. fold (info_args self ctx).
  destruct (pop_positional (positional_fields self) (info_args self ctx)
              (wrapped self args_dict)) as [[args0 d0]|e0] eqn:Hpos.
  - apply pop_positional_popped in Hpos as (vs0 & Hp0 & ->).
    assert (Huniq : forall vs d1,
              popped (wrapped self args_dict) (positional_fields self) vs d1 ->
              vs = vs0 /\ d1 = d0).
    { intros vs d1 Hp.
      assert (H1 : pop_positional (positional_fields self) [] (wrapped self args_dict)
                   = Ok ([] ++ map Positional vs, d1))
        by (apply pop_positional_popped; eauto).
      assert (H2 : pop_positional (positional_fields self) [] (wrapped self args_dict)
                   = Ok ([] ++ map Positional vs0, d0))
        by (apply pop_positional_popped; eauto).
      rewrite H1 in H2. injection H2 as Hm ->. split; [|reflexivity].
      clear -Hm. revert vs0 Hm.
      induction vs as [|v vs IH]; intros [|v0 vs0] Hm; try discriminate; [reflexivity|].
      injection Hm as -> Hm. f_equal. now apply IH. }
    destruct (var_field self) as [k|] eqn:Hvar.
    + rewrite (Hk k eq_refl).
      destruct (pop k d0) as [[v d2]|] eqn:Hpop.
      * destruct (items v) as [extra|] eqn:Hit.
        -- split.
           ++ intros args kwargs. split.
              ** intros [= <- <-]. exists vs0, d0. split; [exact Hp0|].
                 exists v, extra. rewrite <- app_assoc. auto.
              ** intros (vs & d1 & Hp & v' & extra' & Hpop' & Hit' & ->).
                 destruct (Huniq _ _ Hp) as [-> ->].
                 rewrite Hpop in Hpop'. injection Hpop' as <- <-.
                 rewrite Hit in Hit'. injection Hit' as <-.
                 now rewrite <- app_assoc.
           ++ discriminate.
        -- split.
           ++ intros args kwargs. split; [discriminate|].
              intros (vs & d1 & Hp & v' & extra' & Hpop' & Hit' & _).
              destruct (Huniq _ _ Hp) as [-> ->].
              rewrite Hpop in Hpop'. injection Hpop' as <- <-. congruence.
           ++ intros e [= <-]. right. exists vs0, d0, k.
              split; [exact Hp0|]. split; [reflexivity|]. right. eauto.
      * split.
        -- intros args kwargs. split; [discriminate|].
           intros (vs & d1 & Hp & v' & extra' & Hpop' & _).
           destruct (Huniq _ _ Hp) as [-> ->]. congruence.
        -- intros e [= <-]. right. exists vs0, d0, k.
           split; [exact Hp0|]. split; [reflexivity|]. left. auto.
    + split.
      * intros args kwargs. split.
        -- intros [= <- <-]. exists vs0, d0. auto.
        -- intros (vs & d1 & Hp & -> & ->).
           destruct (Huniq _ _ Hp) as [-> ->]. reflexivity.
      * discriminate.
  - split.
    + intros args kwargs. split; [discriminate|].
      intros (vs & d1 & Hp & _).
      assert (H1 : pop_positional (positional_fields self) (info_args self ctx)
                     (wrapped self args_dict)
                   = Ok (info_args self ctx ++ map Positional vs, d1))
        by (apply pop_positional_popped; eauto).
      congruence.
    + intros e [= <-]. left. now apply pop_positional_raise in Hpos.
Qed.

(** When the function takes the call information, it is the first
    argument, and it carries the current retry count. *)
Lemma call_args_head self ctx args_dict args kwargs :
  takes_info self = true ->
  _call_args self ctx args_dict = Ok (args, kwargs) ->
  exists rest,
    args = Info {| context := ctx; retry := _current_retry self |} :: rest.
Proof.
  unfold _call_args. intros -> H.
  set (d0 := if truthy (single_arg_name self) then _ else _) in H.
  set (info := [Info _]) in H.
  pose proof (pop_positional_spec (positional_fields self) info d0) as Hp.
  destruct (pop_positional (positional_fields self) info d0) as [[args0 d1]|e];
    [|discriminate].
  destruct Hp as (vs & -> & _).
  destruct (truthy (var_positional_field self)).
  - destruct (pop _ d1) as [[v d2]|]; [|discriminate].
    destruct (items v) as [extra|]; [|discriminate].
    injection H as <- _. eexists. reflexivity.
  - injection H as <- _. eexists. reflexivity.
Qed.

(** X19.  The retry count that a function is shown.  In a sequence of
    calls served from a counter at zero, the call information laid out for
    a call that validates carries the number of validation failures since
    the last successful call. *)
Theorem call_is_shown_the_streak self ctx ms k m a args kwargs :
  _current_retry self = 0 ->
  executes_ok self ctx ms ->
  takes_info self = true ->
  ms !! k = Some m ->
  validator self (arguments m) = Ok a ->
  _call_args (fst (run_all self ctx (take k ms))) ctx a = Ok (args, kwargs) ->
  exists rest,
    args = Info {| context := ctx;
                   retry := failure_streak 0 (take k (map (validates self) ms)) |} :: rest.
Proof.
  intros H0 Hex Hinfo Hk Hv Hargs.
  assert (Hexk : executes_ok self ctx (take k ms)).
  { eapply executes_ok_incl; [|exact Hex]. intros m' Hin.
    apply list_elem_of_In. apply list_elem_of_In in Hin.
    apply elem_of_take in Hin as (i & Hi & _).
    eapply list_elem_of_lookup_2; exact Hi. }
  destruct (run_all_streak (take k ms) self ctx Hexk) as [Hc _].
  rewrite H0, <- firstn_map in Hc.
  assert (Hself : exists c, fst (run_all self ctx (take k ms)) = set_current_retry self c).
  { clear. generalize (take k ms) as l. intros l. revert self.
    induction l as [|x l IH]; intros self.
    - exists (_current_retry self). cbn. symmetry. apply set_current_retry_same.
    - cbn [run_all]. pose proof (run_sets_counter self ctx x) as Hx.
      destruct (run self ctx x) as [self1 r1]. cbn [fst] in Hx.
      destruct (IH self1) as [c Hc].
      destruct (run_all self1 ctx l) as [self2 rs]. cbn [fst] in *.
      exists c. rewrite Hc, Hx. reflexivity. }
  destruct Hself as [c Hself].
  assert (Hti : takes_info (fst (run_all self ctx (take k ms))) = true)
    by (rewrite Hself; exact Hinfo).
  destruct (call_args_head _ ctx a args kwargs Hti Hargs) as [rest ->].
  rewrite Hc. exists rest. reflexivity.
Qed.
End Facts.

Section OnEcho.
#[local] Existing Instance JsonRuntime.

(** X17 at [echo], which has one retry: of three failing calls after a
    reset the first is answered and the others raise. *)
Lemma reset_restores_budget_witness :
  (forall m, In m (map echo_call ["bad"; "bad"; "bad"]) -> validates echo m = false) /\
  map is_raise (snd (run_all (reset echo) tt (map echo_call ["bad"; "bad"; "bad"])))
    = [false; true; true] /\
  forall i r,
    snd (run_all (reset echo) tt (map echo_call ["bad"; "bad"; "bad"])) !! i = Some r ->
    exists m e,
      map echo_call ["bad"; "bad"; "bad"] !! i = Some m /\
      validator echo (arguments m) = Raise e /\
      r = if Z.of_nat i <? max_retries echo
          then Ok (FunctionValidationError (function_id m) (function_name m) e)
          else Raise (ValidationError e).
Proof.
  assert (H : forall m, In m (map echo_call ["bad"; "bad"; "bad"]) ->
                        validates echo m = false).
  { intros m [<-|[<-|[<-|[]]]]; reflexivity. }
  split; [exact H|]. split; [reflexivity|].
  exact (reset_restores_budget echo tt (map echo_call ["bad"; "bad"; "bad"]) H).
Defined.

(** X19 at [echo]: after a failure, the call that validates is shown a
    retry count of one. *)
Lemma call_is_shown_the_streak_witness :
  _current_retry echo = 0 /\
  executes_ok echo tt (map echo_call ["bad"; "good"]) /\
  takes_info echo = true /\
  map echo_call ["bad"; "good"] !! 1%nat = Some (echo_call "good") /\
  validator echo (arguments (echo_call "good")) = Ok [("text", JStr "good")] /\
  _call_args (fst (run_all echo tt (take 1 (map echo_call ["bad"; "good"])))) tt
    [("text", JStr "good")]
    = Ok ([Info {| context := tt; retry := 1 |}; Positional (JStr "good")], []) /\
  exists rest,
    [Info {| context := tt; retry := 1 |}; Positional (JStr "good")]
    = Info {| context := tt;
              retry := failure_streak 0
                         (take 1 (map (validates echo) (map echo_call ["bad"; "good"]))) |}
      :: rest.
Proof.
  assert (Hex : executes_ok echo tt (map echo_call ["bad"; "good"])).
  { intros m a c _ Hv. cbn in Hv.
    destruct (String.eqb (arguments m) "bad"); [discriminate|].
    injection Hv as <-. reflexivity. }
  split; [reflexivity|]. split; [exact Hex|]. split; [reflexivity|].
  split; [reflexivity|]. split; [reflexivity|]. split; [reflexivity|].
  exact (call_is_shown_the_streak echo tt (map echo_call ["bad"; "good"]) 1
           (echo_call "good") [("text", JStr "good")]
           [Info {| context := tt; retry := 1 |}; Positional (JStr "good")] []
           eq_refl Hex eq_refl eq_refl eq_refl eq_refl).
Defined.

(** A positional field that the validated arguments do not hold, and a
    variable positional field whose items are spread. *)
Example _call_args_evaluated :
  _call_args echo tt [("other", JStr "x")] = Raise (KeyError "text") /\
  _call_args
    {| name := "spread"; description := "spread"; function := fun _ _ => Ok EmptyString;
       is_async := true; takes_info := false; single_arg_name := None;
       positional_fields := ["a"]; var_positional_field := Some "rest";
       validator := fun _ => Raise tt; json_schema := tt;
       max_retries := 0; _current_retry := 0 |}
    tt [("a", JStr "1"); ("rest", JList [JStr "2"; JStr "3"]); ("k", JStr "4")]
  = Ok ([Positional (JStr "1"); Positional (JStr "2"); Positional (JStr "3")],
        [("k", JStr "4")]).
Proof. split; reflexivity. Qed.
End OnEcho.

End RetrieverMore.
